(** * HDT-Node: the native document binding (src/lib/HdtDocument.cc)

    A shallow embedding of [HdtDocument]: the asynchronous open and search
    tasks, the synchronous close, and the [closed] accessor.

    The control thread's effects are written in a state-and-crash monad
    over a [World]: the wrapped native documents, the character buffers
    of live [String::Utf8Value] temporaries, the work queued on the
    default loop, the JavaScript functions called so far and the store
    references deleted so far.  The worker phase of a task is a function
    of the task (and, for a search, of the documents it reads through its
    pointer); it either updates the task or raises a native fault. *)

From stdpp Require Import base option list strings relations.
From Stdlib Require Import Lia.

(** ** Values at the JavaScript boundary *)

(** The v8 values this file builds or inspects.  A JavaScript function is
    known by its identity only; [VDocument a] is the JavaScript object
    that wraps the native [HdtDocument] at address [a]. *)
#[warnings="-register-all"]
Inductive Value :=
| VUndefined
| VNull
| VBoolean (b : bool)
| VString (s : string)
| VFunction (f : nat)
| VError (message : string)
| VObject (properties : list (string * Value))
| VArray (elements : list Value)
| VDocument (a : nat).

Definition IsFunction (v : Value) : bool :=
  match v with VFunction _ => true | _ => false end.

(** [Object::New] and [Object::Set]: properties keep insertion order and a
    key is stored once. *)
Definition Object_New : list (string * Value) := [].

Fixpoint Object_Set (o : list (string * Value)) (key : string) (v : Value)
  : list (string * Value) :=
  match o with
  | [] => [(key, v)]
  | (k, x) :: o' =>
      if decide (k = key) then (k, v) :: o' else (k, x) :: Object_Set o' key v
  end.

(** [Array::New(n)] has length [n] and reads [undefined] everywhere;
    [Array::Set(i, v)] past the end grows the array. *)
Definition Array_New (n : nat) : list Value := replicate n VUndefined.

Definition Array_Set (arr : list Value) (i : nat) (v : Value) : list Value :=
  if decide (i < length arr) then <[i := v]> arr
  else arr ++ replicate (i - length arr) VUndefined ++ [v].

(** [const Arguments&] / [const AccessorInfo&]: the receiver and the
    actual arguments.  Reading past the last argument gives [undefined]. *)
Record Arguments := mkArguments {
  This : Value;
  IsConstructCall : bool;
  actuals : list Value
}.

Definition Length (args : Arguments) : nat := length (actuals args).

Definition arg (args : Arguments) (i : nat) : Value :=
  nth i (actuals args) VUndefined.

(** One [Function::Call] on the global object. *)
Record Invocation := mkInvocation {
  callee : nat;
  argv : list Value
}.

(** ** The store library (hdt-cpp) and v8's string conversion *)

(** [hdt::TripleString] with its three getters. *)
Record TripleString := mkTripleString {
  getSubject : string;
  getPredicate : string;
  getObject : string
}.

(** [hdt::IteratorTripleString]: the triples it has yet to produce.
    [hasNext] tests for emptiness and [next] takes the head. *)
Definition IteratorTripleString := list TripleString.

(** What a C++ [throw] carries: the store library signals its errors by
    throwing a C string; anything else is [Foreign]. *)
Inductive thrown :=
| CString (message : string)
| Foreign.

(** A call into native code returns or throws. *)
Inductive native (A : Type) :=
| Returns (a : A)
| Throws (e : thrown).
Arguments Returns {A} a.
Arguments Throws {A} e.

(** The part of hdt-cpp the binding calls.  [HDT] is the type of store
    references ([HDT*] that is not [NULL]); an [option HDT] is an [HDT*]. *)
Class HdtLibrary := {
  HDT : Type;
  mapIndexedHDT : string -> native (option HDT);
  search : HDT -> string -> string -> string -> native IteratorTripleString
}.

(** [*String::Utf8Value(v)]: the NUL-terminated text v8 writes for [v]. *)
Class V8 := {
  Utf8 : Value -> string
}.

(** ** Faults *)

(** The ways the process dies instead of returning. *)
Inductive fault :=
| AssertionFailed (expression : string)
| NullPointer
| InvalidPointer
| NotCallable
| Terminate (e : thrown).

Inductive result (A : Type) :=
| Ok (a : A)
| Crash (f : fault).
Arguments Ok {A} a.
Arguments Crash {A} f.

Section Binding.

Context `{lib : HdtLibrary} `{v8 : V8}.

(** ** Native objects *)

(** [class HdtDocument : public node::ObjectWrap { HDT* hdt; }] *)
Record HdtDocument := mkHdtDocument {
  hdt : option HDT
}.

(** [HdtDocument::HdtDocument() : hdt(NULL) { }] *)
Definition HdtDocument_new : HdtDocument := {| hdt := None |}.

(** [struct CreateArgs] *)
Record CreateArgs := mkCreateArgs {
  filename : string;
  c_hdt : option HDT;
  error : string;
  c_callback : Value
}.

(** [struct SearchArgs]; [hdtDocument] is a bare pointer. *)
Record SearchArgs := mkSearchArgs {
  hdtDocument : nat;
  subject : string;
  predicate : string;
  object : string;
  s_callback : Value;
  triples : list TripleString
}.

(** A [uv_work_t] together with the pair of functions it was queued with. *)
Inductive uv_work_t :=
| CreateRequest (data : CreateArgs)
| SearchRequest (data : SearchArgs).

(** ** The world of the control thread *)

Record World := mkWorld {
  wrapped : list HdtDocument;
  chars : list (option string);
  queued : list uv_work_t;
  finished : list uv_work_t;
  calls : list Invocation;
  deleted : list HDT
}.

Definition initial : World :=
  {| wrapped := []; chars := []; queued := []; finished := [];
     calls := []; deleted := [] |}.

Definition set_wrapped (f : list HdtDocument -> list HdtDocument) (w : World) :=
  {| wrapped := f (wrapped w); chars := chars w; queued := queued w;
     finished := finished w; calls := calls w; deleted := deleted w |}.

Definition set_chars (f : list (option string) -> list (option string)) (w : World) :=
  {| wrapped := wrapped w; chars := f (chars w); queued := queued w;
     finished := finished w; calls := calls w; deleted := deleted w |}.

Definition set_queued (f : list uv_work_t -> list uv_work_t) (w : World) :=
  {| wrapped := wrapped w; chars := chars w; queued := f (queued w);
     finished := finished w; calls := calls w; deleted := deleted w |}.

Definition set_finished (f : list uv_work_t -> list uv_work_t) (w : World) :=
  {| wrapped := wrapped w; chars := chars w; queued := queued w;
     finished := f (finished w); calls := calls w; deleted := deleted w |}.

Definition set_calls (f : list Invocation -> list Invocation) (w : World) :=
  {| wrapped := wrapped w; chars := chars w; queued := queued w;
     finished := finished w; calls := f (calls w); deleted := deleted w |}.

Definition set_deleted (f : list HDT -> list HDT) (w : World) :=
  {| wrapped := wrapped w; chars := chars w; queued := queued w;
     finished := finished w; calls := calls w; deleted := f (deleted w) |}.

(** ** The monad of control-thread code *)

Definition M (A : Type) : Type := World -> result (A * World).

Definition ret {A} (a : A) : M A := fun w => Ok (a, w).

Definition bind {A B} (m : M A) (k : A -> M B) : M B :=
  fun w => match m w with
           | Ok (a, w') => k a w'
           | Crash f => Crash f
           end.

Definition crash {A} (f : fault) : M A := fun _ => Crash f.

Definition gets {A} (f : World -> A) : M A := fun w => Ok (f w, w).

Definition modify (f : World -> World) : M unit := fun w => Ok (tt, f w).

Notation "x <- m ;; k" := (bind m (fun x => k))
  (at level 100, m at next level, right associativity).
Notation "m ;;; k" := (bind m (fun _ => k))
  (at level 100, right associativity).

(** [assert(e)] *)
Definition assert (e : bool) (expression : string) : M unit :=
  if e then ret tt else crash (AssertionFailed expression).

(** [p->field] on an [HdtDocument*]. *)
Definition load (p : nat) : M HdtDocument :=
  docs <- gets wrapped ;;
  match docs !! p with
  | Some d => ret d
  | None => crash InvalidPointer
  end.

Definition store (p : nat) (d : HdtDocument) : M unit :=
  modify (set_wrapped (fun docs => <[p := d]> docs)).

(** [new HdtDocument()] followed by [Wrap]: the address of the new object. *)
Definition new_HdtDocument : M nat :=
  docs <- gets wrapped ;;
  modify (set_wrapped (fun docs => docs ++ [HdtDocument_new])) ;;;
  ret (length docs).

(** [ObjectWrap::Unwrap<HdtDocument>(handle)] asserts that the handle has
    an internal field and returns the pointer stored there. *)
Definition Unwrap (handle : Value) : M nat :=
  match handle with
  | VDocument a => ret a
  | _ => crash (AssertionFailed "handle->InternalFieldCount() > 0")
  end.

(** [delete hdt] *)
Definition delete_HDT (h : HDT) : M unit :=
  modify (set_deleted (fun l => l ++ [h])).

(** [f->Call(Context::GetCurrent()->Global(), argc, argv)] *)
Definition Call (f : Value) (args : list Value) : M unit :=
  match f with
  | VFunction id => modify (set_calls (fun l => l ++ [mkInvocation id args]))
  | _ => crash NotCallable
  end.

(** [uv_queue_work(uv_default_loop(), request, work, done)] *)
Definition uv_queue_work (request : uv_work_t) : M unit :=
  modify (set_queued (fun q => q ++ [request])).

(** A [String::Utf8Value] temporary owns a character buffer from its
    construction to the end of the full expression it appears in. *)
Definition Utf8Value_new (v : Value) : M nat :=
  bufs <- gets chars ;;
  modify (set_chars (fun bufs => bufs ++ [Some (Utf8 v)])) ;;;
  ret (length bufs).

Definition Utf8Value_delete (p : nat) : M unit :=
  modify (set_chars (fun bufs => <[p := None]> bufs)).

(** Building a [std::string] from a character pointer copies the
    characters it points at. *)
Definition string_of (p : nat) : M string :=
  bufs <- gets chars ;;
  match bufs !! p with
  | Some (Some s) => ret s
  | _ => crash InvalidPointer
  end.

(** ** Opening a document *)

(** The [CreateArgs] constructor: [filename(filename), hdt(NULL),
    callback(callback)]; [error] is default-constructed. *)
Definition new_CreateArgs (filename : nat) (callback : Value) : M CreateArgs :=
  s <- string_of filename ;;
  ret {| filename := s; c_hdt := None; error := ""; c_callback := callback |}.

(** [HdtDocument::CreateAsync], JavaScript's [createHdtDocument(filename,
    callback)].  The [Utf8Value] temporary dies at the end of the
    statement that builds the [CreateArgs]. *)
Definition CreateAsync (args : Arguments) : M Value :=
  assert (Nat.eqb (Length args) 2) "args.Length() == 2" ;;;
  utf8 <- Utf8Value_new (arg args 0) ;;
  data <- new_CreateArgs utf8 (arg args 1) ;;
  Utf8Value_delete utf8 ;;;
  uv_queue_work (CreateRequest data) ;;;
  ret VUndefined.

(** [HdtDocument::Create], on a worker thread: only a thrown C string is
    caught. *)
Definition Create (args : CreateArgs) : result CreateArgs :=
  match mapIndexedHDT (filename args) with
  | Returns p =>
      Ok {| filename := filename args; c_hdt := p; error := error args;
            c_callback := c_callback args |}
  | Throws (CString e) =>
      Ok {| filename := filename args; c_hdt := c_hdt args; error := e;
            c_callback := c_callback args |}
  | Throws e => Crash (Terminate e)
  end.

(** [HdtDocument::New], the JavaScript constructor. *)
Definition New (args : Arguments) : M Value :=
  assert (IsConstructCall args) "args.IsConstructCall()" ;;;
  p <- new_HdtDocument ;;
  ret (VDocument p).

(** [constructor->NewInstance(0, NULL)] *)
Definition NewInstance : M Value :=
  New {| This := VObject Object_New; IsConstructCall := true; actuals := [] |}.

(** [HdtDocument::CreateDone], on the control thread. *)
Definition CreateDone (args : CreateArgs) : M unit :=
  argv <-
    match c_hdt args with
    | Some _ =>
        newDocument <- NewInstance ;;
        hdtDocument <- Unwrap newDocument ;;
        store hdtDocument {| hdt := c_hdt args |} ;;;
        ret [VNull; newDocument]
    | None =>
        ret [VError (error args); VUndefined]
    end ;;
  Call (c_callback args) argv.

(** ** Destroying a document *)

(** [HdtDocument::Destroy] *)
Definition Destroy (this : nat) : M unit :=
  d <- load this ;;
  match hdt d with
  | Some h =>
      delete_HDT h ;;;
      store this {| hdt := None |}
  | None => ret tt
  end.

(** [HdtDocument::~HdtDocument]: the body of the destructor.  The storage
    of the object itself is not part of the world. *)
Definition HdtDocument_dtor (this : nat) : M unit :=
  Destroy this.

(** ** Searching *)

(** The [SearchArgs] constructor; [triples] starts empty. *)
Definition new_SearchArgs (hdtDocument subject predicate object : nat)
    (callback : Value) : M SearchArgs :=
  s <- string_of subject ;;
  p <- string_of predicate ;;
  o <- string_of object ;;
  ret {| hdtDocument := hdtDocument; subject := s; predicate := p; object := o;
         s_callback := callback; triples := [] |}.

(** [HdtDocument::SearchAsync], JavaScript's [HdtDocument#_search(subject,
    predicate, object, callback)].  The three [Utf8Value] temporaries are
    built in one statement and die, last built first, at its end. *)
Definition SearchAsync (args : Arguments) : M Value :=
  assert (Nat.eqb (Length args) 4) "args.Length() == 4" ;;;
  this <- Unwrap (This args) ;;
  utf8s <- Utf8Value_new (arg args 0) ;;
  utf8p <- Utf8Value_new (arg args 1) ;;
  utf8o <- Utf8Value_new (arg args 2) ;;
  data <- new_SearchArgs this utf8s utf8p utf8o (arg args 3) ;;
  Utf8Value_delete utf8o ;;;
  Utf8Value_delete utf8p ;;;
  Utf8Value_delete utf8s ;;;
  uv_queue_work (SearchRequest data) ;;;
  ret VUndefined.

(** The loop of [Search]: while [it->hasNext()], a copy of the triple
    [it->next()] points at is pushed at the back of [triples]. *)
Fixpoint drain (it : IteratorTripleString) (triples : list TripleString)
  : list TripleString :=
  match it with
  | [] => triples
  | t :: it' => drain it' (triples ++ [t])
  end.

(** [HdtDocument::Search], on a worker thread.  It reads [hdt] through
    the document pointer; there is no test for [NULL] and no handler. *)
Definition Search (w : World) (args : SearchArgs) : result SearchArgs :=
  match wrapped w !! hdtDocument args with
  | None => Crash InvalidPointer
  | Some d =>
      match hdt d with
      | None => Crash NullPointer
      | Some h =>
          match search h (subject args) (predicate args) (object args) with
          | Throws e => Crash (Terminate e)
          | Returns it =>
              Ok {| hdtDocument := hdtDocument args; subject := subject args;
                    predicate := predicate args; object := object args;
                    s_callback := s_callback args;
                    triples := drain it (triples args) |}
          end
      end
  end.

(** The body of the conversion loop of [SearchDone]. *)
Definition tripleObject (t : TripleString) : Value :=
  let o := Object_New in
  let o := Object_Set o "subject" (VString (getSubject t)) in
  let o := Object_Set o "predicate" (VString (getPredicate t)) in
  let o := Object_Set o "object" (VString (getObject t)) in
  VObject o.

(** The loop itself: [triples->Set(count++, tripleObject)] for each
    element of the vector, from [begin()] to [end()]. *)
Fixpoint convert (v : list TripleString) (triples : list Value) (count : nat)
  : list Value :=
  match v with
  | [] => triples
  | t :: v' => convert v' (Array_Set triples count (tripleObject t)) (S count)
  end.

(** [HdtDocument::SearchDone], on the control thread. *)
Definition SearchDone (args : SearchArgs) : M unit :=
  let array := convert (triples args) (Array_New (length (triples args))) 0 in
  Call (s_callback args) [VNull; VArray array].

(** ** Closing *)

(** [HdtDocument::Close], JavaScript's [HdtDocument#close([callback])]. *)
Definition Close (args : Arguments) : M Value :=
  hdtDocument <- Unwrap (This args) ;;
  Destroy hdtDocument ;;;
  (if Nat.leb 1 (Length args) && IsFunction (arg args 0)
   then Call (arg args 0) [VNull]
   else ret tt) ;;;
  ret VUndefined.

(** [HdtDocument::ClosedGetter], the accessor of [closed]. *)
Definition ClosedGetter (info : Arguments) : M Value :=
  hdtDocument <- Unwrap (This info) ;;
  d <- load hdtDocument ;;
  ret (VBoolean (negb (bool_decide (is_Some (hdt d))))).

(** ** The scheduler *)

(** The two phases of a queued request. *)
Definition work (w : World) (request : uv_work_t) : result uv_work_t :=
  match request with
  | CreateRequest data =>
      match Create data with Ok d => Ok (CreateRequest d) | Crash f => Crash f end
  | SearchRequest data =>
      match Search w data with Ok d => Ok (SearchRequest d) | Crash f => Crash f end
  end.

Definition after_work (request : uv_work_t) : M unit :=
  match request with
  | CreateRequest data => CreateDone data
  | SearchRequest data => SearchDone data
  end.

(** What the process can do next.  A call from JavaScript runs to its
    end on the control thread; a worker takes any queued request and runs
    its first phase, taken here as one step; the loop takes any request
    whose first phase is over and runs its second phase on the control
    thread.  A JavaScript function that [Call] runs acts on the binding
    only through these calls, and [Call] is the last effect of the
    functions that use it, so what such a function does shows as later
    steps.  A step that crashes has no successor. *)
Inductive step : World -> World -> Prop :=
| step_createHdtDocument args w v w' :
    CreateAsync args w = Ok (v, w') -> step w w'
| step_new args w v w' :
    New args w = Ok (v, w') -> step w w'
| step_search args w v w' :
    SearchAsync args w = Ok (v, w') -> step w w'
| step_close args w v w' :
    Close args w = Ok (v, w') -> step w w'
| step_closed info w v w' :
    ClosedGetter info w = Ok (v, w') -> step w w'
| step_work q1 request q2 w request' :
    queued w = q1 ++ request :: q2 ->
    work w request = Ok request' ->
    step w (set_finished (fun f => f ++ [request'])
             (set_queued (fun _ => q1 ++ q2) w))
| step_after_work f1 request f2 w w' :
    finished w = f1 ++ request :: f2 ->
    after_work request (set_finished (fun _ => f1 ++ f2) w) = Ok (tt, w') ->
    step w w'.

(** ** Vocabulary of the statements *)

(** The world [Destroy] leaves behind. *)
Definition destroyed (this : nat) (d : HdtDocument) (w : World) : World :=
  match hdt d with
  | Some h =>
      set_wrapped (fun docs => <[this := {| hdt := None |}]> docs)
        (set_deleted (fun l => l ++ [h]) w)
  | None => w
  end.

(** The callback [Close] was given, if it was given one. *)
Definition supplied (args : Arguments) : option nat :=
  match actuals args with
  | VFunction f :: _ => Some f
  | _ => None
  end.

(** The world [Close] leaves behind. *)
Definition closed_by (args : Arguments) (this : nat) (d : HdtDocument) (w : World)
  : World :=
  match supplied args with
  | Some f => set_calls (fun l => l ++ [mkInvocation f [VNull]]) (destroyed this d w)
  | None => destroyed this d w
  end.

(** [l'] has every document of [l], each with the reference it had or
    with none. *)
Definition only_closes (l l' : list HdtDocument) : Prop :=
  forall a d, l !! a = Some d ->
    exists d', l' !! a = Some d' /\ (hdt d' = None \/ hdt d' = hdt d).

(** [p] is [NULL] or a reference that [mapIndexedHDT] returned. *)
Definition from_open (p : option HDT) : Prop :=
  p = None \/ exists path, mapIndexedHDT path = Returns p.

Definition request_from_open (fresh : bool) (request : uv_work_t) : Prop :=
  match request with
  | CreateRequest data => if fresh then c_hdt data = None else from_open (c_hdt data)
  | SearchRequest _ => True
  end.

(** Every document holds no reference or one that an open returned; a
    task not yet worked carries none, a worked one carries what its open
    returned. *)
Record provenance (w : World) : Prop := mkProvenance {
  prov_wrapped : Forall (fun d => from_open (hdt d)) (wrapped w);
  prov_queued : Forall (request_from_open true) (queued w);
  prov_finished : Forall (request_from_open false) (finished w)
}.

(** The task [CreateAsync] builds. *)
Definition created (args : Arguments) : CreateArgs :=
  {| filename := Utf8 (arg args 0); c_hdt := None; error := "";
     c_callback := arg args 1 |}.

(** The task [SearchAsync] builds. *)
Definition searched (this : nat) (args : Arguments) : SearchArgs :=
  {| hdtDocument := this; subject := Utf8 (arg args 0);
     predicate := Utf8 (arg args 1); object := Utf8 (arg args 2);
     s_callback := arg args 3; triples := [] |}.

(** The buffers of the three temporaries, once they are dead. *)
Definition spent (args : Arguments) (bufs : list (option string))
  : list (option string) :=
  let n := length bufs in
  <[n := None]> (<[S n := None]> (<[S (S n) := None]>
    (((bufs ++ [Some (Utf8 (arg args 0))]) ++ [Some (Utf8 (arg args 1))])
       ++ [Some (Utf8 (arg args 2))]))).

(** The boundary record of a triple. *)
Definition record (t : TripleString) : Value :=
  VObject [("subject", VString (getSubject t));
           ("predicate", VString (getPredicate t));
           ("object", VString (getObject t))].

(** No character buffer at or after address [n] is alive. *)
Definition dead_from (n : nat) (bufs : list (option string)) : Prop :=
  forall p s, n <= p -> bufs !! p <> Some (Some s).

(** The requests the loop still holds. *)
Definition pending (w : World) : nat := length (queued w) + length (finished w).

(** [h] is a reference that [mapIndexedHDT] returned. *)
Definition from_library (h : HDT) : Prop :=
  exists path, mapIndexedHDT path = Returns (Some h).

(** A request as it is submitted: no reference, no error message, no
    triples. *)
Definition pristine (request : uv_work_t) : Prop :=
  match request with
  | CreateRequest data => c_hdt data = None /\ error data = ""
  | SearchRequest data => triples data = []
  end.

(** A search request holds the triples that the store's search returned
    for the request's own pattern, on a reference that an open returned. *)
Definition answered (request : uv_work_t) : Prop :=
  match request with
  | CreateRequest _ => True
  | SearchRequest data =>
      exists h it,
        from_library h /\
        search h (subject data) (predicate data) (object data) = Returns it /\
        triples data = it
  end.

(** An open request does not carry both a reference and an error message. *)
Definition settled (request : uv_work_t) : Prop :=
  match request with
  | CreateRequest data => c_hdt data = None \/ error data = ""
  | SearchRequest _ => True
  end.

End Binding.

(** * A concrete store *)

(** A store library with one good file, holding the triples [(a,b,c)] and
    [(a,b,d)], and one file whose index fails when searched. *)
Module Demo.

Definition abc : TripleString := mkTripleString "a" "b" "c".
Definition abd : TripleString := mkTripleString "a" "b" "d".

Definition matches (pattern term : string) : bool :=
  bool_decide (pattern = "") || bool_decide (pattern = term).

Definition selects (s p o : string) (t : TripleString) : bool :=
  matches s (getSubject t) && matches p (getPredicate t) && matches o (getObject t).

#[export] Instance library : HdtLibrary := {|
  HDT := nat;
  mapIndexedHDT path :=
    if bool_decide (path = "test.hdt") then Returns (Some 0)
    else if bool_decide (path = "broken.hdt") then Returns (Some 1)
    else Throws (CString "Could not open file");
  search h s p o :=
    match h with
    | 0 => Returns (List.filter (selects s p o) [abc; abd])
    | _ => Throws (CString "Corrupt index")
    end
|}.

#[export] Instance v8 : V8 := {|
  Utf8 v :=
    match v with
    | VString s => s
    | VUndefined => "undefined"
    | VNull => "null"
    | VBoolean true => "true"
    | VBoolean false => "false"
    | _ => "[object Object]"
    end
|}.

(** [createHdtDocument(path, f)] *)
Definition open (path : string) (f : nat) : Arguments :=
  {| This := VUndefined; IsConstructCall := false;
     actuals := [VString path; VFunction f] |}.

(** [document._search(s, p, o, f)] on the document at [a] *)
Definition find (a : nat) (s p o : string) (f : nat) : Arguments :=
  {| This := VDocument a; IsConstructCall := false;
     actuals := [VString s; VString p; VString o; VFunction f] |}.

(** [document.close(...)] and [document.closed] on the document at [a] *)
Definition close (a : nat) (actuals : list Value) : Arguments :=
  {| This := VDocument a; IsConstructCall := false; actuals := actuals |}.

(** A document holding the reference [h]. *)
Definition holding (h : nat) : HdtDocument := {| hdt := Some h |}.

(** The world once [createHdtDocument(path, 7)] has called back with the
    document at address [0] holding the reference [h]. *)
Definition opened (h : nat) : World :=
  {| wrapped := [{| hdt := Some h |}]; chars := [None]; queued := [];
     finished := [];
     calls := [mkInvocation 7 [VNull; VDocument 0]]; deleted := [] |}.

(** The world once a worker has run the open of [test.hdt] submitted with
    callback [7], before its second phase. *)
Definition worked (h : nat) : World :=
  {| wrapped := []; chars := [None]; queued := [];
     finished := [CreateRequest {| filename := "test.hdt"; c_hdt := Some h;
                                   error := ""; c_callback := VFunction 7 |}];
     calls := []; deleted := [] |}.

(** A search for subject [a] and predicate [b], any object, on the
    document at [0], as submitted. *)
Definition pattern : SearchArgs :=
  {| hdtDocument := 0; subject := "a"; predicate := "b"; object := "";
     s_callback := VFunction 8; triples := [] |}.

(** The world [opened 0] once that search has been submitted with
    callback [8] and a worker has run it. *)
Definition answering : World :=
  {| wrapped := [{| hdt := Some 0 |}]; chars := [None; None; None; None];
     queued := [];
     finished := [SearchRequest
                    {| hdtDocument := 0; subject := "a"; predicate := "b";
                       object := ""; s_callback := VFunction 8;
                       triples := [abc; abd] |}];
     calls := [mkInvocation 7 [VNull; VDocument 0]]; deleted := [] |}.

(** The same world after [close()]. *)
Definition shut : World :=
  {| wrapped := [{| hdt := None |}]; chars := [None]; queued := [];
     finished := [];
     calls := [mkInvocation 7 [VNull; VDocument 0]]; deleted := [0] |}.

End Demo.

(** * Properties *)

Section Properties.

Context `{lib : HdtLibrary} `{v8 : V8}.

(** Runs a monadic definition symbolically in a hypothesis or the goal. *)
Ltac run_in H :=
  cbv [bind ret gets modify crash assert load store new_HdtDocument Unwrap
       delete_HDT Call uv_queue_work Utf8Value_new Utf8Value_delete string_of]
    in H;
  simpl in H.

Ltac run :=
  cbv [bind ret gets modify crash assert load store new_HdtDocument Unwrap
       delete_HDT Call uv_queue_work Utf8Value_new Utf8Value_delete string_of];
  simpl.

(** ** The [closed] accessor and [Destroy] *)

Lemma load_wrapped w p d :
  wrapped w !! p = Some d -> load p w = Ok (d, w).
Proof. intros Hp. run. rewrite Hp. reflexivity. Qed.

Lemma Destroy_wrapped w this d :
  wrapped w !! this = Some d ->
  Destroy this w = Ok (tt, destroyed this d w).
Proof.
  intros Hp. unfold Destroy, destroyed. run. rewrite Hp.
  destruct (hdt d); reflexivity.
Qed.

Lemma destroyed_lookup w this d :
  wrapped w !! this = Some d ->
  wrapped (destroyed this d w) !! this = Some {| hdt := None |}.
Proof.
  intros Hp. unfold destroyed. destruct d as [[h|]]; simpl.
  - apply list_lookup_insert_eq. eapply lookup_lt_Some, Hp.
  - exact Hp.
Qed.

(** C7: reading [closed] on a document handle returns the boolean that is
    true exactly when the handle holds no store reference, and leaves the
    world as it was. *)
Theorem ClosedGetter_pure_observation (w : World) (info : Arguments) (a : nat)
    (d : HdtDocument) :
  This info = VDocument a ->
  wrapped w !! a = Some d ->
  exists b : bool,
    ClosedGetter info w = Ok (VBoolean b, w) /\ (b = true <-> hdt d = None).
Proof.
  intros Hthis Hd.
  exists (negb (bool_decide (is_Some (hdt d)))). split.
  - unfold ClosedGetter. rewrite Hthis. run. rewrite Hd. reflexivity.
  - destruct (hdt d) as [h|]; cbn; split; congruence.
Qed.

(** ** Close *)

Lemma supplied_test args :
  Nat.leb 1 (Length args) && IsFunction (arg args 0) = bool_decide (is_Some (supplied args)).
Proof.
  unfold supplied, Length, arg.
  destruct (actuals args) as [|v l]; [|destruct v]; reflexivity.
Qed.

Lemma supplied_arg args f : supplied args = Some f -> arg args 0 = VFunction f.
Proof.
  unfold supplied, arg. destruct (actuals args) as [|[] l]; simpl; congruence.
Qed.

Lemma Close_wrapped w args a d :
  This args = VDocument a ->
  wrapped w !! a = Some d ->
  Close args w = Ok (VUndefined, closed_by args a d w).
Proof.
  intros Hthis Hd. unfold Close. rewrite Hthis.
  unfold Unwrap. unfold bind at 1. unfold ret at 1.
  unfold bind at 1. rewrite (Destroy_wrapped _ _ _ Hd).
  rewrite supplied_test. unfold closed_by.
  destruct (supplied args) as [f|] eqn:Hf.
  - rewrite bool_decide_eq_true_2 by eauto.
    rewrite (supplied_arg _ _ Hf). reflexivity.
  - rewrite bool_decide_eq_false_2 by (intros [? ?]; discriminate). reflexivity.
Qed.

(** C6: [close] on a document handle returns with the store reference
    deleted and gone from the handle, so that [closed] then reads true;
    the only call it makes is to the callback it was given, with a null
    error, and it makes none when it was given no function. *)
Theorem Close_synchronous (w : World) (args : Arguments) (a : nat)
    (d : HdtDocument) :
  This args = VDocument a ->
  wrapped w !! a = Some d ->
  exists w' : World,
    Close args w = Ok (VUndefined, w') /\
    wrapped w' !! a = Some {| hdt := None |} /\
    (forall info, This info = VDocument a ->
       ClosedGetter info w' = Ok (VBoolean true, w')) /\
    (forall h, hdt d = Some h -> deleted w' = deleted w ++ [h]) /\
    (forall f, supplied args = Some f ->
       calls w' = calls w ++ [mkInvocation f [VNull]]) /\
    (supplied args = None -> calls w' = calls w) /\
    queued w' = queued w /\ finished w' = finished w.
Proof.
  intros Hthis Hd. exists (closed_by args a d w).
  assert (Hw : wrapped (closed_by args a d w) !! a = Some {| hdt := None |}).
  { unfold closed_by. destruct (supplied args); simpl;
      apply destroyed_lookup, Hd. }
  split; [apply Close_wrapped; assumption|].
  split; [exact Hw|].
  split.
  { intros info Hinfo. unfold ClosedGetter. rewrite Hinfo. run.
    rewrite Hw. reflexivity. }
  unfold closed_by, destroyed.
  repeat split.
  - intros h Hh. rewrite Hh. destruct (supplied args); reflexivity.
  - intros f Hf. rewrite Hf. destruct (hdt d); reflexivity.
  - intros Hf. rewrite Hf. destruct (hdt d); reflexivity.
  - destruct (supplied args), (hdt d); reflexivity.
  - destruct (supplied args), (hdt d); reflexivity.
Qed.

(** ** Arity *)

(** C8: a call of [createHdtDocument] with other than two arguments, or
    of [_search] with other than four, stops at the assertion: nothing is
    queued and no callback is called. *)
Theorem arity_asserted (w : World) (args : Arguments) :
  (Length args <> 2 ->
     CreateAsync args w = Crash (AssertionFailed "args.Length() == 2")) /\
  (Length args <> 4 ->
     SearchAsync args w = Crash (AssertionFailed "args.Length() == 4")).
Proof.
  split; intros Hn.
  - unfold CreateAsync. unfold bind at 1, assert.
    destruct (Nat.eqb_spec (Length args) 2); [contradiction | reflexivity].
  - unfold SearchAsync. unfold bind at 1, assert.
    destruct (Nat.eqb_spec (Length args) 4); [contradiction | reflexivity].
Qed.

(** ** What each operation does to documents and to the queues *)

Ltac invert_run H :=
  run_in H; repeat case_match; simplify_eq; simpl in *.

Lemma CreateAsync_effect args w v w' :
  CreateAsync args w = Ok (v, w') ->
  wrapped w' = wrapped w /\ finished w' = finished w /\ calls w' = calls w /\
  deleted w' = deleted w /\
  exists data, queued w' = queued w ++ [CreateRequest data] /\
               c_hdt data = None /\ c_callback data = arg args 1.
Proof.
  unfold CreateAsync, new_CreateArgs. intros H. invert_run H.
  repeat split; eauto.
Qed.

Lemma New_effect args w v w' :
  New args w = Ok (v, w') ->
  v = VDocument (length (wrapped w)) /\
  wrapped w' = wrapped w ++ [HdtDocument_new] /\
  queued w' = queued w /\ finished w' = finished w /\ calls w' = calls w /\
  deleted w' = deleted w.
Proof.
  unfold New. intros H. invert_run H. repeat split.
Qed.

Lemma SearchAsync_effect args w v w' :
  SearchAsync args w = Ok (v, w') ->
  wrapped w' = wrapped w /\ finished w' = finished w /\ calls w' = calls w /\
  deleted w' = deleted w /\
  exists data, queued w' = queued w ++ [SearchRequest data].
Proof.
  unfold SearchAsync, new_SearchArgs. intros H. invert_run H.
  repeat split; eauto.
Qed.

Lemma Close_effect args w v w' :
  Close args w = Ok (v, w') ->
  exists a d, This args = VDocument a /\ wrapped w !! a = Some d /\
              v = VUndefined /\ w' = closed_by args a d w.
Proof.
  intros H. destruct (This args) as [| | | | | | | |a] eqn:Hthis;
    try (unfold Close in H; rewrite Hthis in H; discriminate H).
  destruct (wrapped w !! a) as [d|] eqn:Hd.
  - rewrite (Close_wrapped _ _ _ _ Hthis Hd) in H. simplify_eq. eauto 6.
  - unfold Close, Destroy in H. rewrite Hthis in H. run_in H.
    rewrite Hd in H. discriminate H.
Qed.

Lemma ClosedGetter_effect info w v w' :
  ClosedGetter info w = Ok (v, w') -> w' = w.
Proof.
  unfold ClosedGetter. intros H. invert_run H. reflexivity.
Qed.

Lemma CreateDone_effect data w w' :
  CreateDone data w = Ok (tt, w') ->
  queued w' = queued w /\ finished w' = finished w /\ deleted w' = deleted w /\
  wrapped w' = match c_hdt data with
               | Some h => wrapped w ++ [{| hdt := Some h |}]
               | None => wrapped w
               end.
Proof.
  unfold CreateDone, NewInstance, New. intros H.
  destruct (c_hdt data) as [h|]; invert_run H; repeat split.
  rewrite insert_app_r_alt by lia. rewrite Nat.sub_diag. reflexivity.
Qed.

Lemma SearchDone_effect data w w' :
  SearchDone data w = Ok (tt, w') ->
  queued w' = queued w /\ finished w' = finished w /\ deleted w' = deleted w /\
  wrapped w' = wrapped w.
Proof.
  unfold SearchDone. intros H. invert_run H. repeat split.
Qed.

(** ** Documents only ever lose their reference *)

Lemma only_closes_refl l : only_closes l l.
Proof. intros a d Hd. eauto. Qed.

Lemma only_closes_trans l1 l2 l3 :
  only_closes l1 l2 -> only_closes l2 l3 -> only_closes l1 l3.
Proof.
  intros H12 H23 a d Hd.
  destruct (H12 a d Hd) as (d2 & Hd2 & Hh2).
  destruct (H23 a d2 Hd2) as (d3 & Hd3 & Hh3).
  exists d3. split; [exact Hd3|].
  destruct Hh3 as [-> | ->]; [left; reflexivity | exact Hh2].
Qed.

Lemma only_closes_app l extra : only_closes l (l ++ extra).
Proof.
  intros a d Hd. exists d. split; [|right; reflexivity].
  apply lookup_app_l_Some, Hd.
Qed.

Lemma only_closes_destroyed this d w :
  only_closes (wrapped w) (wrapped (destroyed this d w)).
Proof.
  unfold destroyed. destruct (hdt d) as [h|]; simpl; [|apply only_closes_refl].
  intros a x Hx. destruct (decide (a = this)) as [->|Hne].
  - exists {| hdt := None |}. split; [|left; reflexivity].
    apply list_lookup_insert_eq. eapply lookup_lt_Some, Hx.
  - exists x. split; [|right; reflexivity].
    rewrite list_lookup_insert_ne by congruence. exact Hx.
Qed.

Lemma closed_by_wrapped args this d w :
  wrapped (closed_by args this d w) = wrapped (destroyed this d w).
Proof. unfold closed_by. destruct (supplied args); reflexivity. Qed.

Lemma step_only_closes w w' :
  step w w' -> only_closes (wrapped w) (wrapped w').
Proof.
  intros Hstep. destruct Hstep as
    [args w v w' H | args w v w' H | args w v w' H | args w v w' H
    | info w v w' H | q1 request q2 w request' Hq H
    | f1 request f2 w w' Hf H].
  - apply CreateAsync_effect in H as (-> & _). apply only_closes_refl.
  - apply New_effect in H as (_ & -> & _). apply only_closes_app.
  - apply SearchAsync_effect in H as (-> & _). apply only_closes_refl.
  - apply Close_effect in H as (a & d & _ & _ & _ & ->).
    rewrite closed_by_wrapped. apply only_closes_destroyed.
  - apply ClosedGetter_effect in H as ->. apply only_closes_refl.
  - simpl. apply only_closes_refl.
  - destruct request as [data|data]; simpl in H.
    + apply CreateDone_effect in H as (_ & _ & _ & ->). simpl.
      destruct (c_hdt data); [apply only_closes_app | apply only_closes_refl].
    + apply SearchDone_effect in H as (_ & _ & _ & ->). apply only_closes_refl.
Qed.

Lemma steps_only_close w w' :
  rtc step w w' -> only_closes (wrapped w) (wrapped w').
Proof.
  induction 1 as [w | w1 w2 w3 H12 _ IH].
  - apply only_closes_refl.
  - eapply only_closes_trans; [apply step_only_closes, H12 | exact IH].
Qed.

(** C5: a second [close] (or [Destroy]) on a handle returns without
    error and leaves the handle, the deleted references and the queues as
    the first call left them: all it does is call its own callback, if it
    has one, with a null error.  Once closed, the handle stays closed
    whatever the process does next. *)
Theorem close_idempotent (w : World) (first second : Arguments) (a : nat)
    (d : HdtDocument) :
  This first = VDocument a ->
  This second = VDocument a ->
  wrapped w !! a = Some d ->
  exists w1 w2 : World,
    Close first w = Ok (VUndefined, w1) /\
    wrapped w1 !! a = Some {| hdt := None |} /\
    Destroy a w1 = Ok (tt, w1) /\
    Close second w1 = Ok (VUndefined, w2) /\
    w2 = match supplied second with
         | Some f => set_calls (fun l => l ++ [mkInvocation f [VNull]]) w1
         | None => w1
         end /\
    wrapped w2 = wrapped w1 /\ deleted w2 = deleted w1 /\
    (forall w3, rtc step w1 w3 ->
       wrapped w3 !! a = Some {| hdt := None |}).
Proof.
  intros H1 H2 Hd.
  set (w1 := closed_by first a d w).
  assert (Hw1 : wrapped w1 !! a = Some {| hdt := None |}).
  { unfold w1. rewrite closed_by_wrapped. apply destroyed_lookup, Hd. }
  exists w1, (closed_by second a {| hdt := None |} w1).
  split; [apply Close_wrapped; assumption|].
  split; [exact Hw1|].
  split; [apply (Destroy_wrapped _ _ _ Hw1)|].
  split; [apply Close_wrapped; assumption|].
  split; [reflexivity|].
  split; [unfold closed_by; destruct (supplied second); reflexivity|].
  split; [unfold closed_by; destruct (supplied second); reflexivity|].
  intros w3 Hsteps.
  destruct (steps_only_close _ _ Hsteps a _ Hw1) as ([h3] & Hd3 & Hh3).
  simpl in Hh3. rewrite Hd3. f_equal. f_equal. destruct Hh3; assumption.
Qed.

(** ** Where references come from *)

Lemma provenance_initial : provenance initial.
Proof. split; constructor. Qed.

Lemma Create_from_open data data' :
  c_hdt data = None -> Create data = Ok data' -> from_open (c_hdt data').
Proof.
  unfold Create. intros Hnull H.
  destruct (mapIndexedHDT (filename data)) as [p|[e|]] eqn:Hlib; simplify_eq; simpl.
  - right. eauto.
  - left. exact Hnull.
Qed.

Lemma destroyed_from_open this d w :
  Forall (fun d => from_open (hdt d)) (wrapped w) ->
  Forall (fun d => from_open (hdt d)) (wrapped (destroyed this d w)).
Proof.
  intros H. unfold destroyed. destruct (hdt d); simpl; [|exact H].
  apply Forall_insert; [exact H | left; reflexivity].
Qed.

Lemma step_provenance w w' : step w w' -> provenance w -> provenance w'.
Proof.
  intros Hstep [Hw Hq Hf]. destruct Hstep as
    [args w v w' H | args w v w' H | args w v w' H | args w v w' H
    | info w v w' H | q1 request q2 w request' Hq1 H
    | f1 request f2 w w' Hf1 H].
  - apply CreateAsync_effect in H as (Ew & Ef & _ & _ & data & Eq & Hnull & _).
    split; rewrite ?Ew, ?Ef, ?Eq; try assumption.
    apply Forall_app. split; [assumption|]. constructor; [exact Hnull | constructor].
  - apply New_effect in H as (_ & Ew & Eq & Ef & _).
    split; rewrite ?Ew, ?Ef, ?Eq; try assumption.
    apply Forall_app. split; [assumption|].
    constructor; [left; reflexivity | constructor].
  - apply SearchAsync_effect in H as (Ew & Ef & _ & _ & data & Eq).
    split; rewrite ?Ew, ?Ef, ?Eq; try assumption.
    apply Forall_app. split; [assumption|]. constructor; [exact I | constructor].
  - apply Close_effect in H as (a & d & _ & _ & _ & ->).
    split.
    + rewrite closed_by_wrapped. apply destroyed_from_open, Hw.
    + unfold closed_by, destroyed. destruct (supplied args), (hdt d); exact Hq.
    + unfold closed_by, destroyed. destruct (supplied args), (hdt d); exact Hf.
  - apply ClosedGetter_effect in H as ->. split; assumption.
  - rewrite Hq1 in Hq. apply Forall_app in Hq as [Hq1' Hq2'].
    apply Forall_cons in Hq2' as [Hr Hq2'].
    split; simpl.
    + exact Hw.
    + apply Forall_app. split; assumption.
    + apply Forall_app. split; [exact Hf|]. constructor; [|constructor].
      destruct request as [data|data]; simpl in H.
      * destruct (Create data) as [data'|] eqn:HC; simplify_eq. simpl.
        eapply Create_from_open; [exact Hr | exact HC].
      * destruct (Search w data); simplify_eq. exact I.
  - rewrite Hf1 in Hf. apply Forall_app in Hf as [Hf1' Hf2'].
    apply Forall_cons in Hf2' as [Hr Hf2'].
    assert (Hrest : Forall (request_from_open false) (f1 ++ f2))
      by (apply Forall_app; split; assumption).
    destruct request as [data|data]; simpl in H.
    + apply CreateDone_effect in H as (Eq & Ef & _ & Ew). simpl in *.
      split; rewrite ?Ew, ?Ef, ?Eq; try assumption.
      destruct (c_hdt data) as [h|] eqn:Hh; [|exact Hw].
      apply Forall_app. split; [exact Hw|]. constructor; [exact Hr | constructor].
    + apply SearchDone_effect in H as (Eq & Ef & _ & Ew). simpl in *.
      split; rewrite ?Ew, ?Ef, ?Eq; assumption.
Qed.

Lemma reachable_provenance w : rtc step initial w -> provenance w.
Proof.
  intros H. apply rtc_nsteps in H as [n H]. revert w H.
  induction n as [|n IH]; intros w H.
  - inversion H; subst. apply provenance_initial.
  - apply nsteps_inv_r in H as (w0 & H0 & Hlast).
    eapply step_provenance; [exact Hlast | apply IH, H0].
Qed.

(** A step that brings a document into being gives it no reference,
    unless it is the second phase of an open task, which gives it the
    reference the task carries. *)
Lemma step_birth w w' a d' :
  step w w' -> wrapped w !! a = None -> wrapped w' !! a = Some d' ->
  hdt d' = None \/
  exists f1 data f2,
    finished w = f1 ++ CreateRequest data :: f2 /\ c_hdt data = hdt d'.
Proof.
  intros Hstep Hnew Hd'. destruct Hstep as
    [args w v w' H | args w v w' H | args w v w' H | args w v w' H
    | info w v w' H | q1 request q2 w request' Hq1 H
    | f1 request f2 w w' Hf1 H].
  - apply CreateAsync_effect in H as (Ew & _). congruence.
  - apply New_effect in H as (_ & Ew & _). rewrite Ew in Hd'.
    apply lookup_app_Some in Hd' as [Hd'|[_ Hd']]; [congruence|].
    apply list_lookup_singleton_Some in Hd' as [_ <-]. left. reflexivity.
  - apply SearchAsync_effect in H as (Ew & _). congruence.
  - apply Close_effect in H as (b & d & _ & _ & _ & ->).
    rewrite closed_by_wrapped in Hd'. unfold destroyed in Hd'.
    destruct (hdt d); simpl in Hd'; [|congruence].
    apply lookup_lt_Some in Hd'. rewrite length_insert in Hd'.
    apply lookup_ge_None in Hnew. lia.
  - apply ClosedGetter_effect in H as ->. congruence.
  - simpl in Hd'. congruence.
  - destruct request as [data|data]; simpl in H.
    + apply CreateDone_effect in H as (_ & _ & _ & Ew). simpl in Ew.
      rewrite Ew in Hd'. destruct (c_hdt data) as [h|] eqn:Hh; [|congruence].
      apply lookup_app_Some in Hd' as [Hd'|[_ Hd']]; [congruence|].
      apply list_lookup_singleton_Some in Hd' as [_ <-].
      right. exists f1, data, f2. split; [exact Hf1 | exact Hh].
    + apply SearchDone_effect in H as (_ & _ & _ & Ew). simpl in Ew. congruence.
Qed.

(** ** Submitting and completing an open *)

Lemma lookup_at_length {A} (l : list A) (x : A) : (l ++ [x]) !! length l = Some x.
Proof. apply list_lookup_middle. reflexivity. Qed.

Lemma CreateAsync_submits w args :
  Length args = 2 ->
  CreateAsync args w =
    Ok (VUndefined,
        set_queued (fun q => q ++ [CreateRequest (created args)])
          (set_chars (fun bufs => <[length bufs := None]>
                                    (bufs ++ [Some (Utf8 (arg args 0))])) w)).
Proof.
  intros Hlen. unfold CreateAsync, new_CreateArgs. run.
  rewrite Hlen. simpl. rewrite lookup_at_length. reflexivity.
Qed.

Lemma CreateDone_success data h cb w :
  c_hdt data = Some h -> c_callback data = VFunction cb ->
  CreateDone data w =
    Ok (tt, set_calls (fun l => l ++ [mkInvocation cb
                                        [VNull; VDocument (length (wrapped w))]])
              (set_wrapped (fun docs => docs ++ [{| hdt := Some h |}]) w)).
Proof.
  intros Hh Hcb. unfold CreateDone, NewInstance, New. rewrite Hh, Hcb. run.
  unfold set_calls, set_wrapped. simpl.
  rewrite insert_app_r_alt by lia. rewrite Nat.sub_diag. reflexivity.
Qed.

Lemma CreateDone_failure data cb w :
  c_hdt data = None -> c_callback data = VFunction cb ->
  CreateDone data w =
    Ok (tt, set_calls (fun l => l ++ [mkInvocation cb
                                        [VError (error data); VUndefined]]) w).
Proof.
  intros Hh Hcb. unfold CreateDone. rewrite Hh, Hcb. reflexivity.
Qed.

(** C3: an open request queues one task and calls nothing.  When the
    store library returns a reference, the task's second phase calls the
    callback once, with a null error and a new document that holds that
    reference; when the library signals an error, it calls the callback
    once, with an [Error] carrying the library's message and an undefined
    document, and no document comes into being; the same holds, with an
    empty message, when the library returns [NULL] without an error. *)
Theorem open_calls_back_once (w : World) (args : Arguments) (cb : nat) :
  Length args = 2 ->
  arg args 1 = VFunction cb ->
  exists (data : CreateArgs) (w1 : World),
    CreateAsync args w = Ok (VUndefined, w1) /\
    queued w1 = queued w ++ [CreateRequest data] /\
    calls w1 = calls w /\ wrapped w1 = wrapped w /\
    (forall h, mapIndexedHDT (Utf8 (arg args 0)) = Returns (Some h) ->
       exists data', Create data = Ok data' /\
         forall w2, exists w3,
           CreateDone data' w2 = Ok (tt, w3) /\
           calls w3 = calls w2 ++
             [mkInvocation cb [VNull; VDocument (length (wrapped w2))]] /\
           wrapped w3 = wrapped w2 ++ [{| hdt := Some h |}]) /\
    (forall message, mapIndexedHDT (Utf8 (arg args 0)) = Throws (CString message) ->
       exists data', Create data = Ok data' /\
         forall w2, exists w3,
           CreateDone data' w2 = Ok (tt, w3) /\
           calls w3 = calls w2 ++
             [mkInvocation cb [VError message; VUndefined]] /\
           wrapped w3 = wrapped w2) /\
    (mapIndexedHDT (Utf8 (arg args 0)) = Returns None ->
       exists data', Create data = Ok data' /\
         forall w2, exists w3,
           CreateDone data' w2 = Ok (tt, w3) /\
           calls w3 = calls w2 ++
             [mkInvocation cb [VError ""; VUndefined]] /\
           wrapped w3 = wrapped w2).
Proof.
  intros Hlen Hcb. eexists (created args), _.
  split; [apply CreateAsync_submits, Hlen|].
  split; [reflexivity|]. split; [reflexivity|]. split; [reflexivity|].
  split; [|split].
  - intros h Hlib. unfold Create. simpl. rewrite Hlib. eexists. split; [reflexivity|].
    intros w2. eexists. split.
    + apply CreateDone_success; [reflexivity | exact Hcb].
    + split; reflexivity.
  - intros message Hlib. unfold Create. simpl. rewrite Hlib.
    eexists. split; [reflexivity|].
    intros w2. eexists. split.
    + apply CreateDone_failure; [reflexivity | exact Hcb].
    + split; reflexivity.
  - intros Hlib. unfold Create. simpl. rewrite Hlib.
    eexists. split; [reflexivity|].
    intros w2. eexists. split.
    + apply CreateDone_failure; [reflexivity | exact Hcb].
    + split; reflexivity.
Qed.

(** A thrown object that is not a C string passes through the handler of
    [Create]. *)
Lemma Create_uncaught data :
  mapIndexedHDT (filename data) = Throws Foreign ->
  Create data = Crash (Terminate Foreign).
Proof. intros Hlib. unfold Create. rewrite Hlib. reflexivity. Qed.

(** ** Submitting, running and completing a search *)

Lemma SearchAsync_submits w args a :
  Length args = 4 ->
  This args = VDocument a ->
  SearchAsync args w =
    Ok (VUndefined,
        set_queued (fun q => q ++ [SearchRequest (searched a args)])
          (set_chars (spent args) w)).
Proof.
  intros Hlen Hthis. unfold SearchAsync, new_SearchArgs. rewrite Hthis. run.
  rewrite Hlen. simpl.
  set (s := Some (Utf8 (arg args 0))). set (p := Some (Utf8 (arg args 1))).
  set (o := Some (Utf8 (arg args 2))).
  assert (Hs : (((chars w ++ [s]) ++ [p]) ++ [o]) !! length (chars w) = Some s).
  { rewrite <- !app_assoc. apply list_lookup_middle. reflexivity. }
  assert (Hp : (((chars w ++ [s]) ++ [p]) ++ [o]) !! length (chars w ++ [s]) = Some p).
  { rewrite <- (app_assoc _ [p]). apply list_lookup_middle. reflexivity. }
  rewrite Hs. simpl. rewrite Hp. simpl. rewrite lookup_at_length.
  unfold spent, set_queued, set_chars. simpl. rewrite !length_app. simpl.
  replace (length (chars w) + 1) with (S (length (chars w))) by lia.
  replace (S (length (chars w)) + 1) with (S (S (length (chars w)))) by lia.
  reflexivity.
Qed.

Lemma drain_app it acc : drain it acc = acc ++ it.
Proof.
  revert acc. induction it as [|t it IH]; intros acc; simpl.
  - rewrite app_nil_r. reflexivity.
  - rewrite IH, <- app_assoc. reflexivity.
Qed.

Lemma Array_Set_next done hole rest t :
  Array_Set (done ++ hole :: rest) (length done) t = (done ++ [t]) ++ rest.
Proof.
  unfold Array_Set. rewrite length_app. simpl.
  destruct (decide (length done < length done + S (length rest))) as [_|Hge]; [|lia].
  rewrite insert_app_r_alt by lia. rewrite Nat.sub_diag. simpl.
  rewrite <- app_assoc. reflexivity.
Qed.

Lemma convert_from v done :
  convert v (map tripleObject done ++ replicate (length v) VUndefined) (length done)
  = map tripleObject (done ++ v).
Proof.
  revert done. induction v as [|t v IH]; intros done; simpl.
  - rewrite !app_nil_r. reflexivity.
  - pose proof (Array_Set_next (map tripleObject done) VUndefined
                  (replicate (length v) VUndefined) (tripleObject t)) as E.
    rewrite length_map in E. rewrite E. clear E.
    replace (S (length done)) with (length (done ++ [t]))
      by (rewrite length_app; simpl; lia).
    replace (map tripleObject done ++ [tripleObject t])
      with (map tripleObject (done ++ [t])) by (rewrite map_app; reflexivity).
    rewrite IH, <- app_assoc. reflexivity.
Qed.

Lemma convert_all v :
  convert v (Array_New (length v)) 0 = map tripleObject v.
Proof. apply (convert_from v []). Qed.

Lemma tripleObject_record t : tripleObject t = record t.
Proof. reflexivity. Qed.

Lemma SearchDone_calls data cb w :
  s_callback data = VFunction cb ->
  SearchDone data w =
    Ok (tt, set_calls (fun l => l ++ [mkInvocation cb
                                        [VNull; VArray (map record (triples data))]]) w).
Proof.
  intros Hcb. unfold SearchDone. rewrite Hcb, convert_all. reflexivity.
Qed.

Lemma Search_open w data d h it :
  wrapped w !! hdtDocument data = Some d ->
  hdt d = Some h ->
  search h (subject data) (predicate data) (object data) = Returns it ->
  Search w data =
    Ok {| hdtDocument := hdtDocument data; subject := subject data;
          predicate := predicate data; object := object data;
          s_callback := s_callback data; triples := triples data ++ it |}.
Proof.
  intros Hd Hh Hit. unfold Search. rewrite Hd, Hh, Hit, drain_app. reflexivity.
Qed.

(** C4: when the store's search returns an iterator, the worker phase
    materializes the triples the iterator produces, in its order, and the
    completion phase calls the callback with a null error and the array
    holding one [{subject, predicate, object}] record for each of them, in
    that same order. *)
Theorem search_result_in_encounter_order (w : World) (args : Arguments)
    (a cb : nat) (w' : World) (d : HdtDocument) (h : HDT)
    (it : IteratorTripleString) :
  Length args = 4 ->
  This args = VDocument a ->
  arg args 3 = VFunction cb ->
  wrapped w' !! a = Some d ->
  hdt d = Some h ->
  search h (Utf8 (arg args 0)) (Utf8 (arg args 1)) (Utf8 (arg args 2)) = Returns it ->
  exists (data : SearchArgs) (w1 : World) (data' : SearchArgs),
    SearchAsync args w = Ok (VUndefined, w1) /\
    queued w1 = queued w ++ [SearchRequest data] /\
    Search w' data = Ok data' /\
    triples data' = it /\
    forall w2,
      SearchDone data' w2 =
        Ok (tt, set_calls (fun l => l ++ [mkInvocation cb
                                            [VNull; VArray (map record it)]]) w2).
Proof.
  intros Hlen Hthis Hcb Hd Hh Hit.
  eexists (searched a args), _, _.
  split; [exact (SearchAsync_submits w args a Hlen Hthis)|].
  split; [reflexivity|].
  split; [eapply Search_open; [exact Hd | exact Hh | exact Hit]|].
  split; [reflexivity|].
  intros w2. apply SearchDone_calls. exact Hcb.
Qed.

(** ** Inputs are copied at submission *)

Lemma created_buffer_dead (bufs : list (option string)) (x : option string) :
  dead_from (length bufs) (<[length bufs := None]> (bufs ++ [x])).
Proof.
  intros p s Hp Hlook.
  apply list_lookup_insert_Some in Hlook as [(_ & Hnone & _)|(Hne & Hlook)];
    [discriminate|].
  apply lookup_lt_Some in Hlook. rewrite length_app in Hlook. simpl in Hlook. lia.
Qed.

Lemma spent_buffers_dead args (bufs : list (option string)) :
  dead_from (length bufs) (spent args bufs).
Proof.
  intros p s Hp Hlook. unfold spent in Hlook.
  apply list_lookup_insert_Some in Hlook as [(_ & Hnone & _)|(Hn0 & Hlook)];
    [discriminate|].
  apply list_lookup_insert_Some in Hlook as [(_ & Hnone & _)|(Hn1 & Hlook)];
    [discriminate|].
  apply list_lookup_insert_Some in Hlook as [(_ & Hnone & _)|(Hn2 & Hlook)];
    [discriminate|].
  apply lookup_lt_Some in Hlook. rewrite !length_app in Hlook. simpl in Hlook. lia.
Qed.

(** C9: the task an open or a search submits holds its own copies of the
    texts of its string arguments, taken while the call runs; every
    buffer the call made for them is dead when the call returns; and
    what the worker phase yields is a function of the task (and, for a
    search, of the documents), so nothing that later happens to character
    buffers can change it. *)
Theorem inputs_copied_at_submission (w : World) (args : Arguments) :
  (Length args = 2 ->
     exists (data : CreateArgs) (w1 : World),
       CreateAsync args w = Ok (VUndefined, w1) /\
       queued w1 = queued w ++ [CreateRequest data] /\
       filename data = Utf8 (arg args 0) /\
       dead_from (length (chars w)) (chars w1) /\
       forall w2 w3,
         work w2 (CreateRequest data) = work w3 (CreateRequest data)) /\
  (forall a, Length args = 4 -> This args = VDocument a ->
     exists (data : SearchArgs) (w1 : World),
       SearchAsync args w = Ok (VUndefined, w1) /\
       queued w1 = queued w ++ [SearchRequest data] /\
       subject data = Utf8 (arg args 0) /\
       predicate data = Utf8 (arg args 1) /\
       object data = Utf8 (arg args 2) /\
       dead_from (length (chars w)) (chars w1) /\
       forall w2 w3, wrapped w2 = wrapped w3 ->
         work w2 (SearchRequest data) = work w3 (SearchRequest data)).
Proof.
  split.
  - intros Hlen. eexists (created args), _.
    split; [apply CreateAsync_submits, Hlen|].
    split; [reflexivity|]. split; [reflexivity|].
    split; [apply created_buffer_dead|].
    intros w2 w3. reflexivity.
  - intros a Hlen Hthis. eexists (searched a args), _.
    split; [exact (SearchAsync_submits w args a Hlen Hthis)|].
    split; [reflexivity|]. split; [reflexivity|].
    split; [reflexivity|]. split; [reflexivity|].
    split; [apply spent_buffers_dead|].
    intros w2 w3 Hsame. simpl. unfold Search. rewrite Hsame. reflexivity.
Qed.

(** ** What the worker phase of a search does not handle *)

Lemma Search_null w data d :
  wrapped w !! hdtDocument data = Some d ->
  hdt d = None ->
  Search w data = Crash NullPointer.
Proof. intros Hd Hh. unfold Search. rewrite Hd, Hh. reflexivity. Qed.

Lemma Search_throws w data d h e :
  wrapped w !! hdtDocument data = Some d ->
  hdt d = Some h ->
  search h (subject data) (predicate data) (object data) = Throws e ->
  Search w data = Crash (Terminate e).
Proof. intros Hd Hh He. unfold Search. rewrite Hd, Hh, He. reflexivity. Qed.

(** A search submitted on a closed handle is queued, and whenever a
    worker takes it, whatever happened in between, it reads a null
    reference. *)
Lemma search_on_closed_handle w args a :
  Length args = 4 ->
  This args = VDocument a ->
  wrapped w !! a = Some {| hdt := None |} ->
  exists data w1,
    SearchAsync args w = Ok (VUndefined, w1) /\
    queued w1 = queued w ++ [SearchRequest data] /\
    forall w2, rtc step w1 w2 ->
      work w2 (SearchRequest data) = Crash NullPointer.
Proof.
  intros Hlen Hthis Hd. eexists (searched a args), _.
  split; [exact (SearchAsync_submits w args a Hlen Hthis)|].
  split; [reflexivity|].
  intros w2 Hsteps.
  destruct (steps_only_close _ _ Hsteps a {| hdt := None |}) as (d2 & Hd2 & Hh2);
    [exact Hd|].
  simpl. rewrite (Search_null w2 (searched a args) d2); [reflexivity | exact Hd2 |].
  destruct Hh2; assumption.
Qed.

(** A search whose store search throws: the worker phase ends in
    [std::terminate], so the request never reaches its second phase. *)
Lemma search_that_throws w args a w' d h e :
  Length args = 4 ->
  This args = VDocument a ->
  wrapped w' !! a = Some d ->
  hdt d = Some h ->
  search h (Utf8 (arg args 0)) (Utf8 (arg args 1)) (Utf8 (arg args 2)) = Throws e ->
  exists data w1,
    SearchAsync args w = Ok (VUndefined, w1) /\
    queued w1 = queued w ++ [SearchRequest data] /\
    work w' (SearchRequest data) = Crash (Terminate e).
Proof.
  intros Hlen Hthis Hd Hh He. eexists (searched a args), _.
  split; [exact (SearchAsync_submits w args a Hlen Hthis)|].
  split; [reflexivity|].
  simpl. rewrite (Search_throws w' (searched a args) d h e); auto.
Qed.

(** ** The two states of a handle *)

(** C10: a newly constructed document holds no store reference and its
    [closed] reads true.  In every world the process can reach, a
    document holds no reference or one that an open returned; from then
    on it holds that same reference or none; and the only step that
    brings a document holding a reference into being is the second phase
    of an open task, which gives it the reference the task carries. *)
Theorem handle_holds_nothing_or_its_reference (w w' : World) (a : nat)
    (d : HdtDocument) :
  rtc step initial w ->
  rtc step w w' ->
  wrapped w !! a = Some d ->
  hdt HdtDocument_new = None /\
  (forall args v w1 info, New args w = Ok (v, w1) -> This info = v ->
     ClosedGetter info w1 = Ok (VBoolean true, w1)) /\
  from_open (hdt d) /\
  (exists d', wrapped w' !! a = Some d' /\ (hdt d' = None \/ hdt d' = hdt d)) /\
  (forall w'' b d'', step w' w'' ->
     wrapped w' !! b = None -> wrapped w'' !! b = Some d'' ->
     hdt d'' = None \/
     exists f1 data f2,
       finished w' = f1 ++ CreateRequest data :: f2 /\ c_hdt data = hdt d'').
Proof.
  intros Hreach Hsteps Hd.
  split; [reflexivity|].
  split.
  { intros args v w1 info HN Hinfo.
    apply New_effect in HN as (-> & Ew & _).
    unfold ClosedGetter. rewrite Hinfo. run.
    rewrite Ew, lookup_at_length. reflexivity. }
  split.
  { destruct (reachable_provenance w Hreach) as [Hw _ _].
    rewrite Forall_lookup in Hw. exact (Hw a d Hd). }
  split; [exact (steps_only_close _ _ Hsteps a d Hd)|].
  intros w'' b d'' Hstep Hnew Hd''. exact (step_birth _ _ _ _ Hstep Hnew Hd'').
Qed.

End Properties.

(** * Further properties of the binding *)

Section Further.

Context `{lib : HdtLibrary} `{v8 : V8}.

Ltac exec_in H :=
  cbv [bind ret gets modify crash assert load store new_HdtDocument Unwrap
       delete_HDT Call uv_queue_work Utf8Value_new Utf8Value_delete string_of]
    in H;
  simpl in H; repeat case_match; simplify_eq; simpl in *.

(** ** Documents constructed directly *)

(** X1: [New] called other than as a constructor stops at its assertion.
    Called as a constructor it returns a document at an address that held
    none; that document holds no reference in any later world, and a
    worker that takes a search on it reads a null reference. *)
Theorem New_constructs_unopened (w : World) (args : Arguments) :
  (IsConstructCall args = false ->
     New args w = Crash (AssertionFailed "args.IsConstructCall()")) /\
  (IsConstructCall args = true ->
     exists w1 : World,
       New args w = Ok (VDocument (length (wrapped w)), w1) /\
       wrapped w !! length (wrapped w) = None /\
       forall w2, rtc step w1 w2 ->
         wrapped w2 !! length (wrapped w) = Some {| hdt := None |} /\
         forall data, hdtDocument data = length (wrapped w) ->
           work w2 (SearchRequest data) = Crash NullPointer).
Proof.
  split; intros Hc.
  - unfold New, bind, assert. rewrite Hc. reflexivity.
  - eexists. split; [unfold New, bind, assert; rewrite Hc; reflexivity|].
    split; [apply lookup_ge_None; lia|].
    intros w2 Hsteps.
    destruct (steps_only_close _ _ Hsteps (length (wrapped w)) HdtDocument_new)
      as ([p] & Hd & Hp); [apply lookup_at_length|].
    simpl in Hp. assert (p = None) as -> by (destruct Hp; assumption).
    split; [exact Hd|].
    intros data Ha. simpl. rewrite (Search_null w2 data {| hdt := None |});
      [reflexivity | rewrite Ha; exact Hd | reflexivity].
Qed.

(** ** Closing one document among many *)

(** X2: [close] on one document leaves every other document as it was,
    and neither adds nor removes a document. *)
Theorem Close_leaves_other_documents (w w' : World) (args : Arguments)
    (v : Value) (a : nat) :
  This args = VDocument a ->
  Close args w = Ok (v, w') ->
  length (wrapped w') = length (wrapped w) /\
  forall b, b <> a -> wrapped w' !! b = wrapped w !! b.
Proof.
  intros Hthis HC.
  apply Close_effect in HC as (a' & d & Hthis' & Hd & _ & ->).
  assert (a' = a) as -> by congruence.
  rewrite closed_by_wrapped. unfold destroyed.
  destruct (hdt d); simpl.
  - split; [apply length_insert|].
    intros b Hb. apply list_lookup_insert_ne. congruence.
  - split; [reflexivity | intros; reflexivity].
Qed.

(** ** What is deleted *)

Lemma step_deleted w w' :
  step w w' -> provenance w ->
  Forall from_library (deleted w) -> Forall from_library (deleted w').
Proof.
  intros Hstep [Hw _ _] Hdel. destruct Hstep as
    [args w v w' H | args w v w' H | args w v w' H | args w v w' H
    | info w v w' H | q1 request q2 w request' Hq1 H
    | f1 request f2 w w' Hf1 H].
  - apply CreateAsync_effect in H as (_ & _ & _ & -> & _). exact Hdel.
  - apply New_effect in H as (_ & _ & _ & _ & _ & ->). exact Hdel.
  - apply SearchAsync_effect in H as (_ & _ & _ & -> & _). exact Hdel.
  - apply Close_effect in H as (a & d & _ & Hd & _ & ->).
    rewrite Forall_lookup in Hw. specialize (Hw a d Hd).
    unfold closed_by, destroyed.
    destruct (hdt d) as [h|] eqn:Hh; [|destruct (supplied args); exact Hdel].
    assert (Hh' : Forall from_library (deleted w ++ [h])).
    { apply Forall_app. split; [exact Hdel|]. constructor; [|constructor].
      destruct Hw as [Hnone|[path Hpath]]; [discriminate|]. exists path. exact Hpath. }
    destruct (supplied args); exact Hh'.
  - apply ClosedGetter_effect in H as ->. exact Hdel.
  - exact Hdel.
  - destruct request as [data|data]; simpl in H.
    + apply CreateDone_effect in H as (_ & _ & -> & _). exact Hdel.
    + apply SearchDone_effect in H as (_ & _ & -> & _). exact Hdel.
Qed.

(** X3: whatever the process has done, every store reference it has
    deleted is one that [mapIndexedHDT] returned. *)
Theorem deleted_came_from_open (w : World) :
  rtc step initial w -> Forall from_library (deleted w).
Proof.
  intros H. apply rtc_nsteps in H as [n H]. revert w H.
  induction n as [|n IH]; intros w H.
  - inversion H; subst. constructor.
  - apply nsteps_inv_r in H as (w0 & H0 & Hlast).
    eapply step_deleted; [exact Hlast | | apply IH, H0].
    apply reachable_provenance. eapply rtc_nsteps_2, H0.
Qed.

(** ** Closing while a search is pending *)

(** X4: [close] does not cancel a search that is queued on its document
    and does not wait for it: the request stays queued, and a worker that
    takes it from then on reads a null reference. *)
Theorem close_does_not_cancel_pending_search (w : World)
    (args closing : Arguments) (a : nat) (d : HdtDocument) :
  Length args = 4 ->
  This args = VDocument a ->
  This closing = VDocument a ->
  wrapped w !! a = Some d ->
  exists (data : SearchArgs) (w1 w2 : World),
    SearchAsync args w = Ok (VUndefined, w1) /\
    Close closing w1 = Ok (VUndefined, w2) /\
    queued w2 = queued w ++ [SearchRequest data] /\
    forall w3, rtc step w2 w3 ->
      work w3 (SearchRequest data) = Crash NullPointer.
Proof.
  intros Hlen Hthis Hclosing Hd.
  set (w1 := set_queued (fun q => q ++ [SearchRequest (searched a args)])
               (set_chars (spent args) w)).
  assert (Hd1 : wrapped w1 !! a = Some d) by exact Hd.
  exists (searched a args), w1, (closed_by closing a d w1).
  split; [exact (SearchAsync_submits w args a Hlen Hthis)|].
  split; [exact (Close_wrapped w1 closing a d Hclosing Hd1)|].
  split.
  { unfold closed_by, destroyed. destruct (supplied closing), (hdt d); reflexivity. }
  intros w3 Hsteps.
  assert (Hd2 : wrapped (closed_by closing a d w1) !! a = Some {| hdt := None |}).
  { rewrite closed_by_wrapped. apply destroyed_lookup, Hd1. }
  destruct (steps_only_close _ _ Hsteps a _ Hd2) as (d3 & Hd3 & Hh3).
  simpl. rewrite (Search_null w3 (searched a args) d3);
    [reflexivity | exact Hd3 | destruct Hh3; assumption].
Qed.

(** ** The worker phase over time *)


(** ** Calls and requests *)

Lemma CreateDone_calls data w w' :
  CreateDone data w = Ok (tt, w') -> exists i, calls w' = calls w ++ [i].
Proof.
  unfold CreateDone, NewInstance, New. intros H.
  destruct (c_hdt data); exec_in H; eauto.
Qed.

Lemma SearchDone_one_call data w w' :
  SearchDone data w = Ok (tt, w') -> exists i, calls w' = calls w ++ [i].
Proof. unfold SearchDone. intros H. exec_in H. eauto. Qed.

Lemma step_budget w w' :
  step w w' -> length (calls w') + pending w' <= S (length (calls w) + pending w).
Proof.
  unfold pending. intros Hstep. destruct Hstep as
    [args w v w' H | args w v w' H | args w v w' H | args w v w' H
    | info w v w' H | q1 request q2 w request' Hq1 H
    | f1 request f2 w w' Hf1 H].
  - apply CreateAsync_effect in H as (_ & -> & -> & _ & data & -> & _).
    rewrite length_app. simpl. lia.
  - apply New_effect in H as (_ & _ & -> & -> & -> & _). lia.
  - apply SearchAsync_effect in H as (_ & -> & -> & _ & data & ->).
    rewrite length_app. simpl. lia.
  - apply Close_effect in H as (a & d & _ & _ & _ & ->).
    unfold closed_by, destroyed. destruct (supplied args), (hdt d); simpl;
      rewrite ?length_app; simpl; lia.
  - apply ClosedGetter_effect in H as ->. lia.
  - simpl. rewrite Hq1, !length_app. simpl. lia.
  - rewrite Hf1, length_app. simpl.
    destruct request as [data|data]; simpl in H.
    + destruct (CreateDone_calls _ _ _ H) as [i Hi].
      apply CreateDone_effect in H as (-> & -> & _). simpl.
      rewrite Hi, !length_app. simpl. lia.
    + destruct (SearchDone_one_call _ _ _ H) as [i Hi].
      apply SearchDone_effect in H as (-> & -> & _). simpl.
      rewrite Hi, !length_app. simpl. lia.
Qed.

(** X6: after [n] steps the calls made to JavaScript functions and the
    requests still held by the loop number at most [n] more than before:
    a submission adds one request and no call, a worker phase keeps the
    request, a completion gives up its request for one call, [close]
    makes at most one call, and nothing else calls. *)
Theorem calls_within_budget (n : nat) (w w' : World) :
  nsteps step n w w' ->
  length (calls w') + pending w' <= length (calls w) + pending w + n.
Proof.
  induction 1 as [w | n w1 w2 w3 H12 _ IH].
  - lia.
  - apply step_budget in H12. lia.
Qed.

(** ** The result slot of a request *)

Lemma CreateAsync_pristine args w v w' :
  CreateAsync args w = Ok (v, w') ->
  finished w' = finished w /\
  exists data, queued w' = queued w ++ [CreateRequest data] /\
               pristine (CreateRequest data).
Proof.
  unfold CreateAsync, new_CreateArgs. intros H. exec_in H. split; eauto.
Qed.

Lemma SearchAsync_pristine args w v w' :
  SearchAsync args w = Ok (v, w') ->
  finished w' = finished w /\
  exists data, queued w' = queued w ++ [SearchRequest data] /\
               pristine (SearchRequest data).
Proof.
  unfold SearchAsync, new_SearchArgs. intros H. exec_in H. split; eauto.
Qed.

Lemma work_settles w request request' :
  pristine request -> work w request = Ok request' -> settled request'.
Proof.
  destruct request as [data|data]; simpl; intros Hp H.
  - unfold Create in H. destruct Hp as [Hnull Herr].
    destruct (mapIndexedHDT (filename data)) as [p|[e|]]; simplify_eq; simpl.
    + right. exact Herr.
    + left. exact Hnull.
  - destruct (Search w data); simplify_eq. exact I.
Qed.

Lemma step_slots w w' :
  step w w' ->
  Forall pristine (queued w) /\ Forall settled (finished w) ->
  Forall pristine (queued w') /\ Forall settled (finished w').
Proof.
  intros Hstep [Hq Hf]. destruct Hstep as
    [args w v w' H | args w v w' H | args w v w' H | args w v w' H
    | info w v w' H | q1 request q2 w request' Hq1 H
    | f1 request f2 w w' Hf1 H].
  - apply CreateAsync_pristine in H as (-> & data & -> & Hp).
    split; [|exact Hf]. apply Forall_app. split; [exact Hq|].
    constructor; [exact Hp | constructor].
  - apply New_effect in H as (_ & _ & -> & -> & _). split; assumption.
  - apply SearchAsync_pristine in H as (-> & data & -> & Hp).
    split; [|exact Hf]. apply Forall_app. split; [exact Hq|].
    constructor; [exact Hp | constructor].
  - apply Close_effect in H as (a & d & _ & _ & _ & ->).
    unfold closed_by, destroyed. destruct (supplied args), (hdt d); split; assumption.
  - apply ClosedGetter_effect in H as ->. split; assumption.
  - rewrite Hq1 in Hq. apply Forall_app in Hq as [Hq1' Hq2'].
    apply Forall_cons in Hq2' as [Hr Hq2']. simpl. split.
    + apply Forall_app. split; assumption.
    + apply Forall_app. split; [exact Hf|].
      constructor; [eapply work_settles; eassumption | constructor].
  - rewrite Hf1 in Hf. apply Forall_app in Hf as [Hf1' Hf2'].
    apply Forall_cons in Hf2' as [_ Hf2'].
    assert (Hrest : Forall settled (f1 ++ f2)) by (apply Forall_app; split; assumption).
    destruct request as [data|data]; simpl in H.
    + apply CreateDone_effect in H as (-> & -> & _). simpl. split; assumption.
    + apply SearchDone_effect in H as (-> & -> & _). simpl. split; assumption.
Qed.

Lemma reachable_slots w :
  rtc step initial w ->
  Forall pristine (queued w) /\ Forall settled (finished w).
Proof.
  intros H. apply rtc_nsteps in H as [n H]. revert w H.
  induction n as [|n IH]; intros w H.
  - inversion H; subst. split; constructor.
  - apply nsteps_inv_r in H as (w0 & H0 & Hlast).
    eapply step_slots; [exact Hlast | apply IH, H0].
Qed.

(** X7: whatever the process has done, every request waiting for a
    worker is as it was submitted (no reference, no error message, no
    triples), and no open request a worker has finished carries both a
    reference and an error message. *)
Theorem result_slot_written_once (w : World) :
  rtc step initial w ->
  Forall pristine (queued w) /\ Forall settled (finished w).
Proof. exact (reachable_slots w). Qed.

(** ** The triples a finished search holds *)

Lemma Search_answers w data data' :
  Forall (fun d => from_open (hdt d)) (wrapped w) ->
  triples data = [] ->
  Search w data = Ok data' ->
  answered (SearchRequest data').
Proof.
  intros Hw Hempty H. unfold Search in H.
  destruct (wrapped w !! hdtDocument data) as [d|] eqn:Hd; [|discriminate].
  destruct (hdt d) as [h|] eqn:Hh; [|discriminate].
  destruct (search h (subject data) (predicate data) (object data)) as [it|e] eqn:Hit;
    [|discriminate].
  simplify_eq. simpl. exists h, it.
  rewrite Forall_lookup in Hw. specialize (Hw _ _ Hd). rewrite Hh in Hw.
  split; [destruct Hw as [Hnone|[path Hpath]]; [discriminate | exists path; exact Hpath]|].
  split; [exact Hit|].
  rewrite Hempty, drain_app. reflexivity.
Qed.

Lemma step_answered w w' :
  step w w' -> provenance w -> Forall pristine (queued w) ->
  Forall answered (finished w) -> Forall answered (finished w').
Proof.
  intros Hstep [Hw _ _] Hq Hf. destruct Hstep as
    [args w v w' H | args w v w' H | args w v w' H | args w v w' H
    | info w v w' H | q1 request q2 w request' Hq1 H
    | f1 request f2 w w' Hf1 H].
  - apply CreateAsync_effect in H as (_ & -> & _). exact Hf.
  - apply New_effect in H as (_ & _ & _ & -> & _). exact Hf.
  - apply SearchAsync_effect in H as (_ & -> & _). exact Hf.
  - apply Close_effect in H as (a & d & _ & _ & _ & ->).
    unfold closed_by, destroyed. destruct (supplied args), (hdt d); exact Hf.
  - apply ClosedGetter_effect in H as ->. exact Hf.
  - rewrite Hq1 in Hq. apply Forall_app in Hq as [_ Hq2'].
    apply Forall_cons in Hq2' as [Hr _]. simpl.
    apply Forall_app. split; [exact Hf|]. constructor; [|constructor].
    destruct request as [data|data]; simpl in H.
    + destruct (Create data); simplify_eq. exact I.
    + destruct (Search w data) as [data'|] eqn:HS; simplify_eq.
      exact (Search_answers w data data' Hw Hr HS).
  - rewrite Hf1 in Hf. apply Forall_app in Hf as [Hf1' Hf2'].
    apply Forall_cons in Hf2' as [_ Hf2'].
    assert (Hrest : Forall answered (f1 ++ f2)) by (apply Forall_app; split; assumption).
    destruct request as [data|data]; simpl in H.
    + apply CreateDone_effect in H as (_ & -> & _). exact Hrest.
    + apply SearchDone_effect in H as (_ & -> & _). exact Hrest.
Qed.

(** X9: whatever the process has done, every search request a worker has
    finished holds exactly the triples, in order, that the store's search
    returned for that request's subject, predicate and object, on a
    reference that [mapIndexedHDT] returned. *)
Theorem finished_search_holds_store_answer (w : World) :
  rtc step initial w -> Forall answered (finished w).
Proof.
  intros H. apply rtc_nsteps in H as [n H]. revert w H.
  induction n as [|n IH]; intros w H.
  - inversion H; subst. constructor.
  - apply nsteps_inv_r in H as (w0 & H0 & Hlast).
    assert (Hreach : rtc step initial w0) by (eapply rtc_nsteps_2, H0).
    eapply step_answered; [exact Hlast | | | apply IH, H0].
    + apply reachable_provenance, Hreach.
    + apply (reachable_slots w0 Hreach).
Qed.

(** ** The destructor *)

(** X8: the destructor deletes the reference of a document that still
    holds one, once, and leaves the document without it; run on a
    document that [close] has already closed, it deletes nothing and
    changes nothing. *)
Theorem destructor_deletes_once (w : World) (args : Arguments) (a : nat)
    (d : HdtDocument) :
  This args = VDocument a ->
  wrapped w !! a = Some d ->
  (exists w' : World,
     HdtDocument_dtor a w = Ok (tt, w') /\
     wrapped w' !! a = Some {| hdt := None |} /\
     deleted w' = deleted w ++ match hdt d with Some h => [h] | None => [] end) /\
  (exists w1 : World,
     Close args w = Ok (VUndefined, w1) /\
     HdtDocument_dtor a w1 = Ok (tt, w1)).
Proof.
  intros Hthis Hd. split.
  - exists (destroyed a d w).
    split; [exact (Destroy_wrapped w a d Hd)|].
    split; [apply destroyed_lookup, Hd|].
    unfold destroyed. destruct (hdt d); simpl; [reflexivity|].
    rewrite app_nil_r. reflexivity.
  - exists (closed_by args a d w).
    split; [exact (Close_wrapped w args a d Hthis Hd)|].
    apply (Destroy_wrapped (closed_by args a d w) a {| hdt := None |}).
    rewrite closed_by_wrapped. apply destroyed_lookup, Hd.
Qed.

End Further.

(** * The concrete runs *)

Import Demo.

Lemma opened_reachable : rtc step initial (opened 0).
Proof.
  eapply rtc_l.
  { eapply (step_createHdtDocument (open "test.hdt" 7)). reflexivity. }
  eapply rtc_l.
  { eapply (step_work []); [reflexivity | reflexivity]. }
  eapply rtc_l.
  { eapply (step_after_work []); [reflexivity | reflexivity]. }
  apply rtc_refl.
Qed.

Lemma broken_reachable : rtc step initial (opened 1).
Proof.
  eapply rtc_l.
  { eapply (step_createHdtDocument (open "broken.hdt" 7)). reflexivity. }
  eapply rtc_l.
  { eapply (step_work []); [reflexivity | reflexivity]. }
  eapply rtc_l.
  { eapply (step_after_work []); [reflexivity | reflexivity]. }
  apply rtc_refl.
Qed.

(** C1, on a concrete run: a document is opened and handed to the
    callback, then closed, and [closed] reads true; a search submitted on
    it is queued, and its worker phase reads through the null reference.
    No callback is called for it. *)
Theorem search_after_close_faults :
  exists (w : World) (data : SearchArgs),
    Close (close 0 []) (opened 0) = Ok (VUndefined, shut) /\
    ClosedGetter (close 0 []) shut = Ok (VBoolean true, shut) /\
    SearchAsync (find 0 "a" "b" "" 8) shut = Ok (VUndefined, w) /\
    queued w = [SearchRequest data] /\
    finished w = [] /\
    calls w = calls shut /\
    Search w data = Crash NullPointer /\
    work w (SearchRequest data) = Crash NullPointer.
Proof.
  eexists _, _. repeat split; reflexivity.
Qed.

(** C2, on a concrete run: a search on an open document whose store
    search throws the library's error.  The worker phase of the search
    does not catch it; the worker phase of an open given a path the
    library rejects does, and its second phase reports the error. *)
Theorem search_failure_not_captured :
  exists (w : World) (data : SearchArgs) (w' : World) (opening opening' : CreateArgs),
    SearchAsync (find 0 "a" "b" "" 8) (opened 1) = Ok (VUndefined, w) /\
    queued w = [SearchRequest data] /\
    search (1 : HDT) (subject data) (predicate data) (object data)
      = Throws (CString "Corrupt index") /\
    Search w data = Crash (Terminate (CString "Corrupt index")) /\
    work w (SearchRequest data) = Crash (Terminate (CString "Corrupt index")) /\
    calls w = calls (opened 1) /\
    CreateAsync (open "missing.hdt" 9) initial = Ok (VUndefined, w') /\
    queued w' = [CreateRequest opening] /\
    Create opening = Ok opening' /\
    CreateDone opening' initial =
      Ok (tt, set_calls (fun _ => [mkInvocation 9 [VError "Could not open file";
                                                    VUndefined]]) initial).
Proof.
  eexists _, _, _, _, _. repeat split; reflexivity.
Qed.

(** ** The theorems at concrete inputs *)

Lemma ClosedGetter_pure_observation_witness :
  This (close 0 []) = VDocument 0 /\
  wrapped (opened 0) !! 0 = Some (holding 0) /\
  exists b : bool,
    ClosedGetter (close 0 []) (opened 0) = Ok (VBoolean b, opened 0) /\
    (b = true <-> hdt (holding 0) = None).
Proof.
  split; [reflexivity|]. split; [reflexivity|].
  apply (ClosedGetter_pure_observation (opened 0) (close 0 []) 0); reflexivity.
Defined.

Lemma Close_synchronous_witness :
  This (close 0 [VFunction 9]) = VDocument 0 /\
  wrapped (opened 0) !! 0 = Some (holding 0) /\
  exists w' : World,
    Close (close 0 [VFunction 9]) (opened 0) = Ok (VUndefined, w') /\
    wrapped w' !! 0 = Some HdtDocument_new /\
    deleted w' = [0] /\
    calls w' = calls (opened 0) ++ [mkInvocation 9 [VNull]].
Proof.
  split; [reflexivity|]. split; [reflexivity|].
  destruct (Close_synchronous (opened 0) (close 0 [VFunction 9]) 0
              (holding 0) eq_refl eq_refl)
    as (w' & HC & Hw & _ & Hdel & Hcall & _).
  exists w'. split; [exact HC|]. split; [exact Hw|].
  split; [exact (Hdel 0 eq_refl) | exact (Hcall 9 eq_refl)].
Defined.

Lemma arity_asserted_witness :
  Length (close 0 [VString "test.hdt"]) <> 2 /\
  Length (close 0 [VString "a"; VFunction 8]) <> 4 /\
  CreateAsync (close 0 [VString "test.hdt"]) initial
    = Crash (AssertionFailed "args.Length() == 2") /\
  SearchAsync (close 0 [VString "a"; VFunction 8]) (opened 0)
    = Crash (AssertionFailed "args.Length() == 4").
Proof.
  assert (H2 : Length (close 0 [VString "test.hdt"]) <> 2) by (cbv; lia).
  assert (H4 : Length (close 0 [VString "a"; VFunction 8]) <> 4) by (cbv; lia).
  split; [exact H2|]. split; [exact H4|].
  split.
  - exact (proj1 (arity_asserted initial (close 0 [VString "test.hdt"])) H2).
  - exact (proj2 (arity_asserted (opened 0) (close 0 [VString "a"; VFunction 8])) H4).
Defined.

Lemma close_idempotent_witness :
  This (close 0 [VFunction 9]) = VDocument 0 /\
  This (close 0 []) = VDocument 0 /\
  wrapped (opened 0) !! 0 = Some (holding 0) /\
  exists w1 w2 : World,
    Close (close 0 [VFunction 9]) (opened 0) = Ok (VUndefined, w1) /\
    Close (close 0 []) w1 = Ok (VUndefined, w2) /\
    w2 = w1.
Proof.
  split; [reflexivity|]. split; [reflexivity|]. split; [reflexivity|].
  destruct (close_idempotent (opened 0) (close 0 [VFunction 9]) (close 0 []) 0
              (holding 0) eq_refl eq_refl eq_refl)
    as (w1 & w2 & H1 & _ & _ & H2 & E & _).
  exists w1, w2. split; [exact H1|]. split; [exact H2 | exact E].
Defined.

Lemma open_calls_back_once_witness :
  Length (open "test.hdt" 7) = 2 /\
  arg (open "test.hdt" 7) 1 = VFunction 7 /\
  mapIndexedHDT "test.hdt" = Returns (Some 0) /\
  mapIndexedHDT "missing.hdt" = Throws (CString "Could not open file") /\
  (exists data w1 data' w3,
     CreateAsync (open "test.hdt" 7) initial = Ok (VUndefined, w1) /\
     queued w1 = [CreateRequest data] /\
     Create data = Ok data' /\
     CreateDone data' initial = Ok (tt, w3) /\
     calls w3 = [mkInvocation 7 [VNull; VDocument 0]] /\
     wrapped w3 = [holding 0]) /\
  (exists data w1 data' w3,
     CreateAsync (open "missing.hdt" 7) initial = Ok (VUndefined, w1) /\
     queued w1 = [CreateRequest data] /\
     Create data = Ok data' /\
     CreateDone data' initial = Ok (tt, w3) /\
     calls w3 = [mkInvocation 7 [VError "Could not open file"; VUndefined]] /\
     wrapped w3 = []).
Proof.
  split; [reflexivity|]. split; [reflexivity|].
  split; [reflexivity|]. split; [reflexivity|].
  split.
  - destruct (open_calls_back_once initial (open "test.hdt" 7) 7 eq_refl eq_refl)
      as (data & w1 & HA & Hq & _ & _ & Hgood & _ & _).
    destruct (Hgood 0 eq_refl) as (data' & HC & HD).
    destruct (HD initial) as (w3 & HD3 & Hcalls & Hw).
    exists data, w1, data', w3. auto 10.
  - destruct (open_calls_back_once initial (open "missing.hdt" 7) 7 eq_refl eq_refl)
      as (data & w1 & HA & Hq & _ & _ & _ & Hbad & _).
    destruct (Hbad "Could not open file" eq_refl) as (data' & HC & HD).
    destruct (HD initial) as (w3 & HD3 & Hcalls & Hw).
    exists data, w1, data', w3. auto 10.
Defined.

Lemma search_result_in_encounter_order_witness :
  Length (find 0 "a" "b" "" 8) = 4 /\
  This (find 0 "a" "b" "" 8) = VDocument 0 /\
  arg (find 0 "a" "b" "" 8) 3 = VFunction 8 /\
  wrapped (opened 0) !! 0 = Some (holding 0) /\
  search (0 : HDT) "a" "b" "" = Returns [abc; abd] /\
  exists data w1 data',
    SearchAsync (find 0 "a" "b" "" 8) (opened 0) = Ok (VUndefined, w1) /\
    Search (opened 0) data = Ok data' /\
    triples data' = [abc; abd] /\
    SearchDone data' (opened 0) =
      Ok (tt, set_calls
                (fun l => l ++ [mkInvocation 8
                                  [VNull; VArray [record abc; record abd]]])
                (opened 0)).
Proof.
  split; [reflexivity|]. split; [reflexivity|]. split; [reflexivity|].
  split; [reflexivity|]. split; [reflexivity|].
  assert (Hit : search (0 : HDT) (Utf8 (arg (find 0 "a" "b" "" 8) 0))
                  (Utf8 (arg (find 0 "a" "b" "" 8) 1))
                  (Utf8 (arg (find 0 "a" "b" "" 8) 2)) = Returns [abc; abd])
    by reflexivity.
  destruct (search_result_in_encounter_order (opened 0) (find 0 "a" "b" "" 8) 0 8
              (opened 0) (holding 0) 0 [abc; abd]
              eq_refl eq_refl eq_refl eq_refl eq_refl Hit)
    as (data & w1 & data' & HA & _ & HS & Ht & HD).
  exists data, w1, data'. split; [exact HA|]. split; [exact HS|].
  split; [exact Ht | exact (HD (opened 0))].
Defined.

Lemma inputs_copied_at_submission_witness :
  Length (open "test.hdt" 7) = 2 /\
  Length (find 0 "a" "b" "" 8) = 4 /\
  This (find 0 "a" "b" "" 8) = VDocument 0 /\
  (exists data w1,
     CreateAsync (open "test.hdt" 7) initial = Ok (VUndefined, w1) /\
     filename data = "test.hdt" /\
     dead_from 0 (chars w1) /\
     work (opened 0) (CreateRequest data) = work initial (CreateRequest data)) /\
  (exists data w1,
     SearchAsync (find 0 "a" "b" "" 8) (opened 0) = Ok (VUndefined, w1) /\
     subject data = "a" /\ predicate data = "b" /\ object data = "" /\
     dead_from 1 (chars w1) /\
     work (set_chars (fun _ => [Some "x"; Some "y"]) (opened 0)) (SearchRequest data)
       = work (opened 0) (SearchRequest data)).
Proof.
  split; [reflexivity|]. split; [reflexivity|]. split; [reflexivity|].
  split.
  - destruct (proj1 (inputs_copied_at_submission initial (open "test.hdt" 7)) eq_refl)
      as (data & w1 & HA & _ & Hf & Hdead & Hwork).
    exists data, w1. split; [exact HA|]. split; [exact Hf|].
    split; [exact Hdead | apply Hwork].
  - destruct (proj2 (inputs_copied_at_submission (opened 0) (find 0 "a" "b" "" 8))
                0 eq_refl eq_refl)
      as (data & w1 & HA & _ & Hs & Hp & Ho & Hdead & Hwork).
    exists data, w1. split; [exact HA|]. split; [exact Hs|]. split; [exact Hp|].
    split; [exact Ho|]. split; [exact Hdead | apply Hwork; reflexivity].
Defined.

Lemma shut_after_opened : rtc step (opened 0) shut.
Proof.
  eapply rtc_l; [|apply rtc_refl].
  eapply (step_close (close 0 [])). reflexivity.
Qed.

Lemma handle_holds_nothing_or_its_reference_witness :
  rtc step initial (opened 0) /\
  rtc step (opened 0) shut /\
  wrapped (opened 0) !! 0 = Some (holding 0) /\
  from_open (Some (0 : HDT)) /\
  exists d', wrapped shut !! 0 = Some d' /\
             (hdt d' = None \/ hdt d' = hdt (holding 0)).
Proof.
  split; [exact opened_reachable|]. split; [exact shut_after_opened|].
  split; [reflexivity|].
  destruct (handle_holds_nothing_or_its_reference (opened 0) shut 0
              (holding 0) opened_reachable shut_after_opened eq_refl)
    as (_ & _ & Hfrom & Hlater & _).
  split; [exact Hfrom | exact Hlater].
Defined.

(** ** The further properties at concrete inputs *)

Lemma shut_reachable : rtc step initial shut.
Proof. eapply rtc_trans; [exact opened_reachable | exact shut_after_opened]. Qed.

Lemma worked_reachable : rtc step initial (worked 0).
Proof.
  eapply rtc_l.
  { eapply (step_createHdtDocument (open "test.hdt" 7)). reflexivity. }
  eapply rtc_l.
  { eapply (step_work []); [reflexivity | reflexivity]. }
  apply rtc_refl.
Qed.

Lemma opened_in_three : nsteps step 3 initial (opened 0).
Proof.
  eapply nsteps_l.
  { eapply (step_createHdtDocument (open "test.hdt" 7)). reflexivity. }
  eapply nsteps_l.
  { eapply (step_work []); [reflexivity | reflexivity]. }
  eapply nsteps_l; [|apply nsteps_O].
  eapply (step_after_work []); [reflexivity | reflexivity].
Qed.

Lemma New_constructs_unopened_witness :
  IsConstructCall (close 0 []) = false /\
  IsConstructCall (mkArguments (VObject []) true []) = true /\
  New (close 0 []) (opened 0) = Crash (AssertionFailed "args.IsConstructCall()") /\
  exists w1 : World,
    New (mkArguments (VObject []) true []) (opened 0) = Ok (VDocument 1, w1) /\
    wrapped w1 !! 1 = Some HdtDocument_new.
Proof.
  split; [reflexivity|]. split; [reflexivity|].
  split.
  - exact (proj1 (New_constructs_unopened (opened 0) (close 0 [])) eq_refl).
  - destruct (proj2 (New_constructs_unopened (opened 0)
                       (mkArguments (VObject []) true [])) eq_refl)
      as (w1 & HN & _ & Hlater).
    exists w1. split; [exact HN|].
    exact (proj1 (Hlater w1 (rtc_refl _ _))).
Defined.

Lemma Close_leaves_other_documents_witness :
  This (close 0 []) = VDocument 0 /\
  Close (close 0 []) (opened 0) = Ok (VUndefined, shut) /\
  length (wrapped shut) = length (wrapped (opened 0)) /\
  forall b, b <> 0 -> wrapped shut !! b = wrapped (opened 0) !! b.
Proof.
  split; [reflexivity|]. split; [reflexivity|].
  apply (Close_leaves_other_documents (opened 0) shut (close 0 []) VUndefined 0);
    reflexivity.
Defined.

Lemma deleted_came_from_open_witness :
  rtc step initial shut /\ Forall from_library (deleted shut).
Proof.
  split; [exact shut_reachable|].
  apply (deleted_came_from_open shut). exact shut_reachable.
Defined.

Lemma close_does_not_cancel_pending_search_witness :
  Length (find 0 "a" "b" "" 8) = 4 /\
  This (find 0 "a" "b" "" 8) = VDocument 0 /\
  This (close 0 []) = VDocument 0 /\
  wrapped (opened 0) !! 0 = Some (holding 0) /\
  exists data w1 w2,
    SearchAsync (find 0 "a" "b" "" 8) (opened 0) = Ok (VUndefined, w1) /\
    Close (close 0 []) w1 = Ok (VUndefined, w2) /\
    queued w2 = [SearchRequest data] /\
    work w2 (SearchRequest data) = Crash NullPointer.
Proof.
  split; [reflexivity|]. split; [reflexivity|]. split; [reflexivity|].
  split; [reflexivity|].
  destruct (close_does_not_cancel_pending_search (opened 0)
              (find 0 "a" "b" "" 8) (close 0 []) 0 (holding 0)
              eq_refl eq_refl eq_refl eq_refl)
    as (data & w1 & w2 & HS & HC & Hq & Hlater).
  exists data, w1, w2. split; [exact HS|]. split; [exact HC|].
  split; [exact Hq | exact (Hlater w2 (rtc_refl _ _))].
Defined.


Lemma calls_within_budget_witness :
  nsteps step 3 initial (opened 0) /\
  length (calls (opened 0)) + pending (opened 0)
    <= length (calls initial) + pending initial + 3.
Proof.
  split; [exact opened_in_three|].
  apply (calls_within_budget 3 initial (opened 0)). exact opened_in_three.
Defined.

Lemma result_slot_written_once_witness :
  rtc step initial (worked 0) /\
  Forall pristine (queued (worked 0)) /\ Forall settled (finished (worked 0)).
Proof.
  split; [exact worked_reachable|].
  apply (result_slot_written_once (worked 0)). exact worked_reachable.
Defined.

Lemma destructor_deletes_once_witness :
  This (close 0 [VFunction 9]) = VDocument 0 /\
  wrapped (opened 0) !! 0 = Some (holding 0) /\
  (exists w', HdtDocument_dtor 0 (opened 0) = Ok (tt, w') /\
              deleted w' = [0]) /\
  (exists w1, Close (close 0 [VFunction 9]) (opened 0) = Ok (VUndefined, w1) /\
              HdtDocument_dtor 0 w1 = Ok (tt, w1)).
Proof.
  split; [reflexivity|]. split; [reflexivity|].
  destruct (destructor_deletes_once (opened 0) (close 0 [VFunction 9]) 0 (holding 0)
              eq_refl eq_refl)
    as ((w' & HD & _ & Hdel) & Hclosed).
  split; [|exact Hclosed].
  exists w'. split; [exact HD | exact Hdel].
Defined.

Lemma answering_reachable : rtc step initial answering.
Proof.
  eapply rtc_trans; [exact opened_reachable|].
  eapply rtc_l.
  { eapply (step_search (find 0 "a" "b" "" 8)). reflexivity. }
  eapply rtc_l.
  { eapply (step_work []); [reflexivity | reflexivity]. }
  apply rtc_refl.
Qed.

Lemma finished_search_holds_store_answer_witness :
  rtc step initial answering /\ Forall answered (finished answering).
Proof.
  split; [exact answering_reachable|].
  apply (finished_search_holds_store_answer answering). exact answering_reachable.
Defined.
